(** * drive-api: the folder scope guard and the upload resolution

    A shallow embedding of [src/utils/googleDrive.ts]
    ([isUnderDefaultFolder], [findExistingFile], [uploadFile],
    [validateFolder], [processFileUpload], [deleteFolderContents]) over an
    abstract Drive client, the functions of [./oauth] that wrap [fetch].

    An [async] function is a value of [Async A]: it either never settles
    (the recursion of [isUnderDefaultFolder] is driven by a fuel argument,
    and [None] stands for a walk that is still running when the fuel is
    spent), or it settles to a returned value or a thrown [Error], together
    with the remote calls it awaited, in the order they were issued.  With
    no fuel at all the guard has not taken a step; [S fuel] is a guard that
    runs.  [console.log] and [console.error] are not modelled. *)

From Stdlib Require Import String List Bool Arith Lia.
From Stdlib Require DecimalString.
Import ListNotations.
Local Open Scope string_scope.

(** ** Data of the Drive client *)

(** The settled state of a promise: fulfilled, or rejected with an [Error]
    of the given message. *)
Inductive Outcome (A : Type) : Type :=
| Returned (value : A)
| Thrown (message : string).
Arguments Returned {A} value.
Arguments Thrown {A} message.

Record GoogleDriveCredentials : Type := {
  clientId : string;
  clientSecret : string;
  refreshToken : string
}.

Record TokenExchangeParams : Type := {
  tx_clientId : string;
  tx_clientSecret : string;
  tx_code : string;
  tx_redirectUri : string
}.

(** [TokenResponseSchema]; only [access_token] is read by the callers. *)
Record TokenResponse : Type := {
  access_token : string;
  token_type : string
}.

(** [DriveFileSchema]: optional fields are [option]s. *)
Record DriveFile : Type := {
  file_id : string;
  file_name : string;
  file_webViewLink : option string;
  file_createdTime : option string;
  file_mimeType : option string
}.

(** [DriveFileInfoSchema]. *)
Record DriveFileInfo : Type := {
  info_id : string;
  info_name : string;
  info_mimeType : string;
  info_parents : option (list string)
}.

(** [DriveListFilesParamsSchema]. *)
Record DriveListFilesParams : Type := {
  parentFolderId : string;
  mimeType : option string;
  accessToken : string;
  orderBy : option string;
  fields : option string
}.

(** The [File] of an upload request: its name, its media type and its
    bytes. *)
Record File : Type := {
  name : string;
  type : string;
  content : list Byte.byte
}.

(** What [uploadFile] hands to [fetch]: the URL, the method and the JSON
    metadata part ([parents] is absent on an update), and the media type of
    the data part.  The bytes of the multipart body are not modelled. *)
Record UploadRequest : Type := {
  apiUrl : string;
  method : string;
  metadata_name : string;
  metadata_parents : option (list string);
  dataContentType : string;
  authorization : string
}.

Record UploadResult : Type := {
  upload_id : string;
  upload_name : string
}.

(** The [Response] of the upload [fetch]: [ok], [text()] and [json()];
    [json()] rejects when the body is no JSON. *)
Record UploadResponse : Type := {
  ok : bool;
  text : string;
  json : Outcome UploadResult
}.

(** The Drive client: every function of [./oauth] that the guard and the
    resolver await, as the outcome it settles to for given arguments; the
    remote state is the same all along one request.  [listDriveFiles]
    gives the [files] of its response. *)
Record DriveClient : Type := {
  refreshAccessToken : TokenExchangeParams -> Outcome TokenResponse;
  getDriveFileInfo : string -> string -> string -> Outcome DriveFileInfo;
  listDriveFiles : DriveListFilesParams -> Outcome (list DriveFile);
  deleteDriveFile : string -> string -> Outcome unit;
  fetchUpload : UploadRequest -> Outcome UploadResponse
}.

(** A remote call, as it is awaited. *)
Inductive Call : Type :=
| CallRefreshAccessToken (params : TokenExchangeParams)
| CallGetDriveFileInfo (fileId accessToken fields : string)
| CallListDriveFiles (params : DriveListFilesParams)
| CallDeleteDriveFile (fileId accessToken : string)
| CallFetchUpload (request : UploadRequest).

Definition isGetDriveFileInfo (c : Call) : bool :=
  match c with CallGetDriveFileInfo _ _ _ => true | _ => false end.

Definition isListDriveFiles (c : Call) : bool :=
  match c with CallListDriveFiles _ => true | _ => false end.

Definition isDeleteDriveFile (c : Call) : bool :=
  match c with CallDeleteDriveFile _ _ => true | _ => false end.

(** ** Asynchronous computations *)

Definition Async (A : Type) : Type := option (Outcome A * list Call).

Definition ret {A : Type} (a : A) : Async A := Some (Returned a, []).

Definition throw {A : Type} (message : string) : Async A :=
  Some (Thrown message, []).

(** [await] of a client call: the call is logged and its outcome taken. *)
Definition await {A : Type} (c : Call) (r : Outcome A) : Async A :=
  Some (r, [c]).

Definition bind {A B : Type} (m : Async A) (k : A -> Async B) : Async B :=
  match m with
  | None => None
  | Some (Thrown e, calls) => Some (Thrown e, calls)
  | Some (Returned a, calls) =>
      match k a with
      | None => None
      | Some (r, calls') => Some (r, (calls ++ calls')%list)
      end
  end.

(** [try { m } catch (error) { handler error.message }]. *)
Definition try_catch {A : Type} (m : Async A) (handler : string -> Async A)
  : Async A :=
  match m with
  | None => None
  | Some (Returned a, calls) => Some (Returned a, calls)
  | Some (Thrown e, calls) =>
      match handler e with
      | None => None
      | Some (r, calls') => Some (r, (calls ++ calls')%list)
      end
  end.

Notation "x <- m ;; k" := (bind m (fun x => k))
  (at level 61, m at next level, right associativity).

(** JavaScript truthiness of a string, and [a || b] on strings. *)
Definition truthy (s : string) : bool := negb (s =? "").

Definition orElse (a b : string) : string := if truthy a then a else b.

(** [`${n}`] of a non-negative integer. *)
Definition showNat (n : nat) : string :=
  DecimalString.NilEmpty.string_of_uint (Nat.to_uint n).

Definition folderMimeType : string := "application/vnd.google-apps.folder".

(** ** The functions of [googleDrive.ts] *)

Section GoogleDrive.

Variable drive : DriveClient.

Definition getAccessToken (credentials : GoogleDriveCredentials)
  : Async string :=
  let params := {| tx_clientId := clientId credentials;
                   tx_clientSecret := clientSecret credentials;
                   tx_code := refreshToken credentials;
                   tx_redirectUri := "" |} in
  try_catch
    (tokenResponse <- await (CallRefreshAccessToken params)
                            (refreshAccessToken drive params) ;;
     if truthy (access_token tokenResponse)
     then ret (access_token tokenResponse)
     else throw "No access token in response")
    (fun message => throw ("Failed to refresh access token: " ++ message)).

(** The [for (const parentId of data.parents)] loop of
    [isUnderDefaultFolder], over the recursive call [check]. *)
Fixpoint forParents (check : string -> Async bool) (parents : list string)
  : Async bool :=
  match parents with
  | [] => ret false
  | parentId :: rest =>
      under <- check parentId ;;
      if under then ret true else forParents check rest
  end.

Fixpoint isUnderDefaultFolder (fuel : nat)
  (folderId defaultFolderId accessToken : string) : Async bool :=
  match fuel with
  | O => None
  | S fuel' =>
      if folderId =? defaultFolderId then ret true
      else
        try_catch
          (data <- await (CallGetDriveFileInfo folderId accessToken "parents")
                         (getDriveFileInfo drive folderId accessToken
                                           "parents") ;;
           match info_parents data with
           | None => ret false
           | Some [] => ret false
           | Some parents =>
               forParents
                 (fun parentId =>
                    isUnderDefaultFolder fuel' parentId defaultFolderId
                                         accessToken)
                 parents
           end)
          (fun _ => ret false)
  end.

Definition findExistingFile (fileName parentFolderId accessToken : string)
  : Async (option string) :=
  let params := {| parentFolderId := parentFolderId;
                   mimeType := None;
                   accessToken := accessToken;
                   orderBy := None;
                   fields := Some "files(id,name)" |} in
  try_catch
    (files <- await (CallListDriveFiles params) (listDriveFiles drive params) ;;
     let matchingFiles :=
       filter (fun file => file_name file =? fileName) files in
     match matchingFiles with
     | first :: _ => ret (Some (file_id first))
     | [] => ret None
     end)
    (fun _ => ret None).

(** [existingFileId ? a : b]: [null] and the empty string are falsy. *)
Definition hasExistingFileId (existingFileId : option string) : bool :=
  match existingFileId with
  | Some fileId => truthy fileId
  | None => false
  end.

(** The request [uploadFile] builds: [apiUrl], [method], [metadata]. *)
Definition uploadRequest (file : File) (parentFolderId : string)
  (existingFileId : option string) (accessToken : string) : UploadRequest :=
  let fileName := orElse (name file) "untitled" in
  {| apiUrl :=
       match existingFileId with
       | Some fileId =>
           if truthy fileId
           then "https://www.googleapis.com/upload/drive/v3/files/" ++ fileId
                ++ "?uploadType=multipart&fields=id,name,webViewLink,webContentLink"
           else "https://www.googleapis.com/upload/drive/v3/files?uploadType=multipart&fields=id,name,webViewLink,webContentLink"
       | None =>
           "https://www.googleapis.com/upload/drive/v3/files?uploadType=multipart&fields=id,name,webViewLink,webContentLink"
       end;
     method := if hasExistingFileId existingFileId then "PATCH" else "POST";
     metadata_name := fileName;
     metadata_parents :=
       if hasExistingFileId existingFileId then None
       else Some [parentFolderId];
     dataContentType := orElse (type file) "application/octet-stream";
     authorization := "Bearer " ++ accessToken |}.

Definition uploadFile (file : File) (parentFolderId : string)
  (existingFileId : option string) (accessToken : string)
  : Async UploadResult :=
  let request := uploadRequest file parentFolderId existingFileId accessToken in
  uploadResponse <- await (CallFetchUpload request) (fetchUpload drive request) ;;
  if ok uploadResponse
  then
    match json uploadResponse with
    | Returned result => ret result
    | Thrown message => throw message
    end
  else throw ("Failed to upload to Google Drive: " ++ text uploadResponse).

(** [{ valid, error?, details? }]. *)
Record FolderValidation : Type := {
  valid : bool;
  validation_error : option string;
  validation_details : option string
}.

Definition validateFolder (fuel : nat)
  (folderId defaultFolderId accessToken : string) : Async FolderValidation :=
  if negb (truthy folderId) || (folderId =? defaultFolderId)
  then ret {| valid := true; validation_error := None;
              validation_details := None |}
  else
    try_catch
      (folderInfo <- await (CallGetDriveFileInfo folderId accessToken
                                                 "id,name,mimeType,parents")
                           (getDriveFileInfo drive folderId accessToken
                                             "id,name,mimeType,parents") ;;
       isValidFolder <- isUnderDefaultFolder fuel folderId defaultFolderId
                                             accessToken ;;
       if negb isValidFolder
       then ret {| valid := false;
                   validation_error := Some "Unauthorized folder access";
                   validation_details :=
                     Some ("Folder " ++ folderId
                           ++ " is not under the allowed default folder") |}
       else ret {| valid := true; validation_error := None;
                   validation_details := None |})
      (fun _ =>
         ret {| valid := false;
                validation_error := Some "Invalid folder ID";
                validation_details :=
                  Some ("Folder " ++ folderId ++ " not found") |}).

(** [{ success, error?, details? }]. *)
Record UploadOutcome : Type := {
  upload_success : bool;
  upload_error : option string;
  upload_details : option string
}.

(** Lines 292-298 of [processFileUpload]: the value of [existingFileId]
    that is handed to [uploadFile]. *)
Definition resolveExistingFileId (overwrite : bool) (file : File)
  (parentFolderId accessToken : string) : Async (option string) :=
  if overwrite
  then
    let fileName := orElse (name file) "untitled" in
    findExistingFile fileName parentFolderId accessToken
  else ret None.

Definition processFileUpload (fuel : nat) (file : option File)
  (folderId : string) (overwrite : bool)
  (credentials : GoogleDriveCredentials) (defaultFolderId : string)
  : Async UploadOutcome :=
  match file with
  | None =>
      ret {| upload_success := false;
             upload_error := Some "No file provided";
             upload_details := None |}
  | Some file =>
      accessToken <- getAccessToken credentials ;;
      let parentFolderId := orElse folderId defaultFolderId in
      folderValidation <- validateFolder fuel parentFolderId defaultFolderId
                                         accessToken ;;
      if negb (valid folderValidation)
      then ret {| upload_success := false;
                  upload_error := validation_error folderValidation;
                  upload_details := validation_details folderValidation |}
      else
        existingFileId <- resolveExistingFileId overwrite file parentFolderId
                                                accessToken ;;
        _ <- uploadFile file parentFolderId existingFileId accessToken ;;
        ret {| upload_success := true; upload_error := None;
               upload_details := None |}
  end.

(** [{ success, message, error?, details? }]. *)
Record DeleteOutcome : Type := {
  success : bool;
  message : string;
  delete_error : option string;
  delete_details : option string
}.

(** The predicate of [result.files.filter] in [deleteFolderContents]:
    [!file.mimeType || file.mimeType !== folder]. *)
Definition keptForDeletion (file : DriveFile) : bool :=
  match file_mimeType file with
  | None => true
  | Some m => negb (truthy m) || negb (m =? folderMimeType)
  end.

(** The [for (const file of files)] loop of [deleteFolderContents], with
    its two accumulators [deletedCount] and [errors]. *)
Fixpoint deleteEach (accessToken : string) (files : list DriveFile)
  (deletedCount : nat) (errors : list string) : Async (nat * list string) :=
  match files with
  | [] => ret (deletedCount, errors)
  | file :: rest =>
      step <- try_catch
                (_ <- await (CallDeleteDriveFile (file_id file) accessToken)
                            (deleteDriveFile drive (file_id file) accessToken) ;;
                 ret (S deletedCount, errors))
                (fun message =>
                   ret (deletedCount,
                        (errors ++ [("Error deleting " ++ file_name file
                                     ++ ": " ++ message)%string])%list)) ;;
      deleteEach accessToken rest (fst step) (snd step)
  end.

Definition deleteFolderContents (fuel : nat) (folderId : option string)
  (credentials : GoogleDriveCredentials) (defaultFolderId : string)
  : Async DeleteOutcome :=
  match folderId with
  | None =>
      ret {| success := false; message := "";
             delete_error := Some "Folder ID is required";
             delete_details := None |}
  | Some folderId =>
      if negb (truthy folderId)
      then ret {| success := false; message := "";
                  delete_error := Some "Folder ID is required";
                  delete_details := None |}
      else
        accessToken <- getAccessToken credentials ;;
        isUnderDefault <- isUnderDefaultFolder fuel folderId defaultFolderId
                                               accessToken ;;
        if negb isUnderDefault
        then ret {| success := false; message := "";
                    delete_error := Some "Unauthorized folder access";
                    delete_details :=
                      Some ("Folder " ++ folderId
                            ++ " is not under the allowed default folder") |}
        else
          let params := {| parentFolderId := folderId;
                           mimeType := None;
                           accessToken := accessToken;
                           orderBy := None;
                           fields := Some "files(id,name,mimeType)" |} in
          try_catch
            (listed <- await (CallListDriveFiles params)
                             (listDriveFiles drive params) ;;
             let files := filter keptForDeletion listed in
             counts <- deleteEach accessToken files 0 [] ;;
             ret {| success := true;
                    message :=
                      "Deleted " ++ showNat (fst counts)
                      ++ " files from folder. "
                      ++ (if (0 <? length (snd counts))%nat
                          then "Errors: " ++ showNat (length (snd counts))
                          else "");
                    delete_error := None;
                    delete_details := None |})
            (fun message =>
               throw ("Failed to list folder contents: " ++ message))
  end.

End GoogleDrive.

(** ** Vocabulary of the statements *)

(** A computation that settles without throwing. *)
Definition settles {A : Type} (m : Async A) : Prop :=
  exists a calls, m = Some (Returned a, calls).

(** A computation that is still running or has returned: it has not
    thrown. *)
Definition neverThrows {A : Type} (m : Async A) : Prop :=
  m = None \/ settles m.

(** The calls of [m] after the call [c]. *)
Definition after {A : Type} (c : Call) (m : Async A) : Async A :=
  match m with
  | None => None
  | Some (r, calls) => Some (r, c :: calls)
  end.

(** Every call of a settled computation satisfies [P]. *)
Definition callsAll {A : Type} (P : Call -> Prop) (m : Async A) : Prop :=
  match m with
  | None => True
  | Some (_, calls) => Forall P calls
  end.

Section Vocabulary.

Variable drive : DriveClient.
Variables defaultFolderId accessToken : string.

(** The guard with the arguments it keeps along the recursion first. *)
Definition walk (fuel : nat) (folderId : string) : Async bool :=
  isUnderDefaultFolder drive fuel folderId defaultFolderId accessToken.

(** The parent lookup of [isUnderDefaultFolder], as a call. *)
Definition lookup (folderId : string) : Call :=
  CallGetDriveFileInfo folderId accessToken "parents".

(** The parent list the client returns for a folder; empty when the lookup
    fails or the response has no [parents]. *)
Definition parentsOf (folderId : string) : list string :=
  match getDriveFileInfo drive folderId accessToken "parents" with
  | Returned data =>
      match info_parents data with
      | Some parents => parents
      | None => []
      end
  | Thrown _ => []
  end.

(** The parent chain of a folder reaches the default folder. *)
Inductive reaches : string -> Prop :=
| reaches_self : reaches defaultFolderId
| reaches_parent folderId parentId :
    In parentId (parentsOf folderId) -> reaches parentId -> reaches folderId.

(** Every parent walk from a folder ends: at the default folder, at a
    folder without parents or at a failed lookup. *)
Inductive finiteDepth : string -> Prop :=
| finiteDepth_intro folderId :
    (folderId <> defaultFolderId ->
     forall parentId, In parentId (parentsOf folderId) ->
                      finiteDepth parentId) ->
    finiteDepth folderId.

End Vocabulary.

(** A listed entry is a folder. *)
Definition isFolder (file : DriveFile) : bool :=
  match file_mimeType file with
  | Some m => m =? folderMimeType
  | None => false
  end.

(** The parameters of the listing [findExistingFile] issues. *)
Definition searchParams (parentFolderId accessToken : string)
  : DriveListFilesParams :=
  {| parentFolderId := parentFolderId; mimeType := None;
     accessToken := accessToken; orderBy := None;
     fields := Some "files(id,name)" |}.

(** The parameters of the listing [deleteFolderContents] issues. *)
Definition contentsParams (folderId accessToken : string)
  : DriveListFilesParams :=
  {| parentFolderId := folderId; mimeType := None;
     accessToken := accessToken; orderBy := None;
     fields := Some "files(id,name,mimeType)" |}.

Definition createUrl : string :=
  "https://www.googleapis.com/upload/drive/v3/files?uploadType=multipart&fields=id,name,webViewLink,webContentLink".

Definition deleteCall (accessToken : string) (file : DriveFile) : Call :=
  CallDeleteDriveFile (file_id file) accessToken.

Definition deleteSucceeds (drive : DriveClient) (accessToken : string)
  (file : DriveFile) : bool :=
  match deleteDriveFile drive (file_id file) accessToken with
  | Returned _ => true
  | Thrown _ => false
  end.

(** The message of a successful [deleteFolderContents]. *)
Definition deletedMessage (deleted failed : nat) : string :=
  "Deleted " ++ showNat deleted ++ " files from folder. "
  ++ (if (0 <? failed)%nat then "Errors: " ++ showNat failed else "").

(** ** Concrete clients *)

Definition folderInfo (fileId : string) (parents : option (list string))
  : DriveFileInfo :=
  {| info_id := fileId; info_name := fileId;
     info_mimeType := folderMimeType; info_parents := parents |}.

(** Lookups answered from a table of parent lists; a folder that is not in
    the table is not found. *)
Fixpoint lookupTable (table : list (string * list string)) (fileId : string)
  : Outcome DriveFileInfo :=
  match table with
  | [] => Thrown "Failed to get file info: File not found"
  | (id, parents) :: rest =>
      if fileId =? id then Returned (folderInfo id (Some parents))
      else lookupTable rest fileId
  end.

Definition plainFile (fileId fileName : string) (mime : option string)
  : DriveFile :=
  {| file_id := fileId; file_name := fileName; file_webViewLink := None;
     file_createdTime := None; file_mimeType := mime |}.

(** A client from its answers: the token refresh and the upload succeed. *)
Definition clientOf (info : string -> Outcome DriveFileInfo)
  (listing : Outcome (list DriveFile)) (deletion : string -> Outcome unit)
  : DriveClient :=
  {| refreshAccessToken :=
       fun _ => Returned {| access_token := "token"; token_type := "Bearer" |};
     getDriveFileInfo := fun fileId _ _ => info fileId;
     listDriveFiles := fun _ => listing;
     deleteDriveFile := fun fileId _ => deletion fileId;
     fetchUpload :=
       fun request =>
         Returned {| ok := true; text := "";
                     json :=
                       Returned {| upload_id := "new-file-id";
                                   upload_name := metadata_name request |} |} |}.

(** The scenarios of the specification: [C] is a child of the root [R];
    [G] is a child of [P], which has no parent. *)
Definition scenarioDrive : DriveClient :=
  clientOf (lookupTable [("C", ["R"]); ("G", ["P"]); ("P", [])])
           (Returned [plainFile "x" "a.txt" None])
           (fun _ => Returned tt).

(** [A] has the parents [B] and [R], in this order, and [B] is its own
    parent. *)
Definition cyclicSiblingDrive : DriveClient :=
  clientOf (lookupTable [("A", ["B"; "R"]); ("B", ["B"])])
           (Returned []) (fun _ => Returned tt).

(** [X] and [Y] are each other's parent. *)
Definition twoCycleDrive : DriveClient :=
  clientOf (lookupTable [("X", ["Y"]); ("Y", ["X"])])
           (Returned []) (fun _ => Returned tt).

(** Every lookup fails. *)
Definition unreachableDrive : DriveClient :=
  clientOf (fun _ => Thrown "Failed to get file info: network error")
           (Thrown "Failed to list files: network error")
           (fun _ => Thrown "Failed to delete file: network error").

(** A chain of any depth: the parent of a folder is named by the rest of
    its id, down to the root [R]. *)
Definition chainDrive : DriveClient :=
  clientOf (fun fileId =>
              match fileId with
              | String _ rest => Returned (folderInfo fileId (Some [rest]))
              | EmptyString => Thrown "Failed to get file info: File not found"
              end)
           (Returned []) (fun _ => Returned tt).

Fixpoint deepFolder (depth : nat) : string :=
  match depth with
  | O => "R"
  | S depth' => "x" ++ deepFolder depth'
  end.

Fixpoint descent (accessToken : string) (depth : nat) : list Call :=
  match depth with
  | O => []
  | S depth' => lookup accessToken (deepFolder depth) :: descent accessToken depth'
  end.

(** A folder with two files, one of which cannot be deleted, and a
    subfolder. *)
Definition contentsDrive : DriveClient :=
  clientOf (lookupTable [("F", ["R"])])
           (Returned [plainFile "f1" "a.txt" (Some "text/plain");
                      plainFile "d1" "sub" (Some folderMimeType);
                      plainFile "f2" "b.txt" None])
           (fun fileId =>
              if fileId =? "f2"
              then Thrown "Failed to delete file: backend error"
              else Returned tt).

(** Two entries of the same name: the first one returned is the target. *)
Definition duplicateNamesDrive : DriveClient :=
  clientOf (lookupTable [])
           (Returned [plainFile "n" "notes.txt" None;
                      plainFile "x" "a.txt" None;
                      plainFile "u" "A.TXT" None;
                      plainFile "y" "a.txt" None])
           (fun _ => Returned tt).

Definition someCredentials : GoogleDriveCredentials :=
  {| clientId := "client"; clientSecret := "secret"; refreshToken := "refresh" |}.

Definition someFile : File :=
  {| name := "a.txt"; type := "text/plain"; content := [] |}.

(** ** The remaining functions of [googleDrive.ts]: folders *)

(** [FolderInfo]. *)
Record FolderInfo : Type := {
  folder_id : string;
  folder_name : string;
  folder_webViewLink : option string;
  folder_createdTime : string
}.

(** [CreateFolderParamsSchema] and [CreateFolderResponseSchema]. *)
Record CreateFolderParams : Type := {
  create_name : string;
  create_parentId : string;
  create_accessToken : string
}.

Record CreateFolderResponse : Type := {
  created_id : string;
  created_name : string;
  created_webViewLink : option string
}.

(** [{ success, folder?, error?, details? }] of [createFolder]. *)
Record CreateFolderOutcome : Type := {
  create_success : bool;
  create_folder : option CreateFolderResponse;
  create_error : option string;
  create_details : option string
}.

(** The calls of [createFolder]: those of the token refresh, and
    [createDriveFolder]. *)
Inductive FolderCall : Type :=
| DriveCall (c : Call)
| CallCreateDriveFolder (params : CreateFolderParams).

(** Asynchronous computations over [FolderCall]s, as [Async] is over
    [Call]s. *)
Definition AsyncF (A : Type) : Type := option (Outcome A * list FolderCall).

Definition retF {A : Type} (a : A) : AsyncF A := Some (Returned a, []).

Definition throwF {A : Type} (message : string) : AsyncF A :=
  Some (Thrown message, []).

Definition awaitF {A : Type} (c : FolderCall) (r : Outcome A) : AsyncF A :=
  Some (r, [c]).

Definition liftF {A : Type} (m : Async A) : AsyncF A :=
  match m with
  | None => None
  | Some (r, calls) => Some (r, map DriveCall calls)
  end.

Definition bindF {A B : Type} (m : AsyncF A) (k : A -> AsyncF B) : AsyncF B :=
  match m with
  | None => None
  | Some (Thrown e, calls) => Some (Thrown e, calls)
  | Some (Returned a, calls) =>
      match k a with
      | None => None
      | Some (r, calls') => Some (r, (calls ++ calls')%list)
      end
  end.

Definition try_catchF {A : Type} (m : AsyncF A) (handler : string -> AsyncF A)
  : AsyncF A :=
  match m with
  | None => None
  | Some (Returned a, calls) => Some (Returned a, calls)
  | Some (Thrown e, calls) =>
      match handler e with
      | None => None
      | Some (r, calls') => Some (r, (calls ++ calls')%list)
      end
  end.

(** An awaited value that is no remote call ([c.req.json()]). *)
Definition settled {A : Type} (r : Outcome A) : Async A := Some (r, []).

(** Truthiness of an optional string: [undefined], [null] and the empty
    string are falsy. *)
Definition truthyOpt (s : option string) : bool :=
  match s with
  | Some v => truthy v
  | None => false
  end.

(** [a || b] where [a] may be [undefined] or [null]. *)
Definition orElseOpt (a : option string) (b : string) : string :=
  match a with
  | Some v => orElse v b
  | None => b
  end.

(** [a || null] on an optional string. *)
Definition orNull (a : option string) : option string :=
  if truthyOpt a then a else None.

Section Folders.

Variable drive : DriveClient.

(** [createDriveFolder] of [./oauth], as the outcome it settles to. *)
Variable createDriveFolder : CreateFolderParams -> Outcome CreateFolderResponse.

(** [new Date().toISOString()] when the entry at a position of the listing
    is mapped. *)
Variable clock : nat -> string.

(** The callback of [result.files.map] in [listFolders], from the position
    [index] on. *)
Fixpoint toFolderInfos (index : nat) (files : list DriveFile)
  : list FolderInfo :=
  match files with
  | [] => []
  | folder :: rest =>
      {| folder_id := file_id folder;
         folder_name := file_name folder;
         folder_webViewLink := orNull (file_webViewLink folder);
         folder_createdTime :=
           orElseOpt (file_createdTime folder) (clock index) |}
      :: toFolderInfos (S index) rest
  end.

Definition listFolders (parentFolderId accessToken : string)
  : Async (list FolderInfo) :=
  let params := {| parentFolderId := parentFolderId;
                   mimeType := Some "application/vnd.google-apps.folder";
                   accessToken := accessToken;
                   orderBy := None;
                   fields := None |} in
  try_catch
    (files <- await (CallListDriveFiles params) (listDriveFiles drive params) ;;
     ret (toFolderInfos 0 files))
    (fun message => throw ("Failed to list folders: " ++ message)).

(** [name] and [parentId] come from the request body and may be absent. *)
Definition createFolder (name parentId : option string)
  (credentials : GoogleDriveCredentials) (defaultFolderId : string)
  : AsyncF CreateFolderOutcome :=
  match name with
  | None =>
      retF {| create_success := false; create_folder := None;
              create_error := Some "Folder name is required";
              create_details := None |}
  | Some name =>
      if negb (truthy name)
      then retF {| create_success := false; create_folder := None;
                   create_error := Some "Folder name is required";
                   create_details := None |}
      else
        try_catchF
          (bindF (liftF (getAccessToken drive credentials))
             (fun accessToken =>
                let parentFolderId := orElseOpt parentId defaultFolderId in
                let params := {| create_name := name;
                                 create_parentId := parentFolderId;
                                 create_accessToken := accessToken |} in
                bindF (awaitF (CallCreateDriveFolder params)
                              (createDriveFolder params))
                  (fun folder =>
                     retF {| create_success := true;
                             create_folder :=
                               Some {| created_id := created_id folder;
                                       created_name := created_name folder;
                                       created_webViewLink :=
                                         created_webViewLink folder |};
                             create_error := None;
                             create_details := None |})))
          (fun message => throwF ("Failed to create folder: " ++ message))
  end.

End Folders.

(** ** The handlers of the folder routes *)

(** [String.prototype.includes]. *)
Fixpoint includes (s searched : string) : bool :=
  String.prefix searched s
  || match s with
     | EmptyString => false
     | String _ rest => includes rest searched
     end.

Fixpoint dropChars (n : nat) (s : string) : string :=
  match n, s with
  | O, _ => s
  | S n', String _ rest => dropChars n' rest
  | S _, EmptyString => EmptyString
  end.

(** [String.prototype.replace] with a string pattern: the first occurrence
    is replaced ([replacement] is taken as it is; the handlers pass the
    empty string). *)
Fixpoint replaceFirst (s pattern replacement : string) : string :=
  if String.prefix pattern s
  then replacement ++ dropChars (String.length pattern) s
  else
    match s with
    | EmptyString => EmptyString
    | String c rest => String c (replaceFirst rest pattern replacement)
    end.

(** The bindings of [c.env] the handlers read; a binding may be missing. *)
Record Env : Type := {
  GOOGLE_CLIENT_ID : option string;
  GOOGLE_CLIENT_SECRET : option string;
  GOOGLE_REFRESH_TOKEN : option string;
  GOOGLE_DRIVE_DEFAULT_FOLDER_ID : option string
}.

(** The JSON bodies of the responses. *)
Inductive ResponseBody : Type :=
| ErrorBody (error : string) (details : option string)
| DeletedBody (message : string)
| CreatedBody (folder : option CreateFolderResponse)
| FoldersBody (folders : list FolderInfo)
| CallbackBody (succeeded : bool) (refreshed : option string)
               (message : string) (accessTokenNote : option string).

(** [c.json(body, status)]. *)
Record HttpResponse : Type := {
  status : nat;
  body : ResponseBody
}.

Definition json_ (b : ResponseBody) (code : nat) : HttpResponse :=
  {| status := code; body := b |}.

(** The body of a create-folder request, as [c.req.json()] gives it. *)
Record CreateFolderRequest : Type := {
  request_name : option string;
  request_parentId : option string
}.

(** The credentials of the environment, when the four bindings are set. *)
Definition envCredentials (env : Env)
  : option (GoogleDriveCredentials * string) :=
  match GOOGLE_CLIENT_ID env, GOOGLE_CLIENT_SECRET env,
        GOOGLE_REFRESH_TOKEN env, GOOGLE_DRIVE_DEFAULT_FOLDER_ID env with
  | Some id, Some secret, Some token, Some folder =>
      if truthy id && truthy secret && truthy token && truthy folder
      then Some ({| clientId := id; clientSecret := secret;
                    refreshToken := token |}, folder)
      else None
  | _, _, _, _ => None
  end.

(** The [catch] block the three folder handlers share, up to the failure
    they name: the thrown message is sorted by what it includes. *)
Definition errorResponse (failure fallback message : string) : HttpResponse :=
  if includes message "Failed to refresh access token"
  then json_ (ErrorBody "Failed to refresh access token"
                (Some (replaceFirst message
                         "Failed to refresh access token: " "")))
              500
  else if includes message "No access token"
  then json_ (ErrorBody "Failed to get access token" None) 500
  else if includes message failure
  then json_ (ErrorBody failure
                (Some (replaceFirst message (failure ++ ": ") "")))
              500
  else json_ (ErrorBody fallback (Some message)) 500.

Section Handlers.

Variable drive : DriveClient.
Variable createDriveFolder : CreateFolderParams -> Outcome CreateFolderResponse.
Variable clock : nat -> string.

Definition deleteFolderContentsHandler (fuel : nat) (env : Env)
  (requestJson : Outcome (option string)) : Async HttpResponse :=
  try_catch
    match envCredentials env with
    | None =>
        ret (json_ (ErrorBody "Missing required environment variables" None)
                   400)
    | Some (credentials, defaultFolderId) =>
        folderId <- settled requestJson ;;
        result <- deleteFolderContents drive fuel folderId credentials
                                       defaultFolderId ;;
        if negb (success result)
        then
          match delete_error result with
          | Some error =>
              if error =? "Unauthorized folder access"
              then ret (json_ (ErrorBody error (delete_details result)) 403)
              else ret (json_ (ErrorBody
                                 (orElse error "Delete folder contents failed")
                                 None) 400)
          | None =>
              ret (json_ (ErrorBody "Delete folder contents failed" None) 400)
          end
        else ret (json_ (DeletedBody (message result)) 200)
    end
    (fun message =>
       ret (errorResponse "Failed to list folder contents"
                          "Failed to delete folder contents" message)).

Definition listFoldersHandler (env : Env) (parentId : option string)
  : Async HttpResponse :=
  try_catch
    match envCredentials env with
    | None =>
        ret (json_ (ErrorBody "Missing required environment variables" None)
                   400)
    | Some (credentials, defaultFolderId) =>
        accessToken <- getAccessToken drive credentials ;;
        let parentFolderId :=
          match parentId with
          | Some id =>
              if id =? "null" then "null"
              else if negb (truthy id) || (id =? "") then defaultFolderId
              else id
          | None => defaultFolderId
          end in
        folders <- listFolders drive clock parentFolderId accessToken ;;
        ret (json_ (FoldersBody folders) 200)
    end
    (fun message =>
       ret (errorResponse "Failed to list folders" "Failed to list folders"
                          message)).

Definition createFolderHandler (env : Env)
  (requestJson : Outcome CreateFolderRequest) : AsyncF HttpResponse :=
  try_catchF
    match envCredentials env with
    | None =>
        retF (json_ (ErrorBody "Missing required environment variables" None)
                    400)
    | Some (credentials, defaultFolderId) =>
        bindF (liftF (settled requestJson))
          (fun request =>
             bindF (createFolder drive createDriveFolder
                                 (request_name request)
                                 (request_parentId request)
                                 credentials defaultFolderId)
               (fun result =>
                  if negb (create_success result)
                  then retF (json_ (ErrorBody
                                      (orElseOpt (create_error result)
                                                 "Create folder failed")
                                      None) 400)
                  else retF (json_ (CreatedBody (create_folder result)) 200)))
    end
    (fun message =>
       retF (errorResponse "Failed to create folder" "Failed to create folder"
                           message)).

End Handlers.

(** The default folder exists and cannot be listed. *)
Definition listingFailsDrive : DriveClient :=
  clientOf (lookupTable [("F", ["R"])])
           (Thrown "Failed to list files: quota exceeded")
           (fun _ => Returned tt).

(** ** The wrappers of [./oauth] over [fetch] *)

Module OAuth.

(** The body of a request: none, the form fields of a [URLSearchParams], or
    the folder metadata that [createDriveFolder] serialises. *)
Inductive RequestBody : Type :=
| NoBody
| FormBody (formFields : list (string * string))
| FolderMetadataBody (folderName folderMime : string) (parents : list string).

(** What a wrapper hands to [fetch]: the URL, the search parameters it
    appends to it (before their encoding), the method ([GET] when none is
    given), the headers and the body. *)
Record Request : Type := {
  url : string;
  searchParams : list (string * string);
  method : string;
  headers : list (string * string);
  body : RequestBody
}.

(** The [Response] of [fetch]: [ok], and the body that [text()] and
    [json()] read. *)
Record Response : Type := {
  ok : bool;
  text : string
}.

(** [TokenResponseSchema], with the fields the callers read. *)
Record Tokens : Type := {
  access_token : string;
  refresh_token : option string;
  token_type : string
}.

(** [TokenErrorResponseSchema]. *)
Record TokenError : Type := {
  error : string;
  error_description : option string
}.

(** [try { r } catch { handler }] on a settled outcome. *)
Definition catching {A : Type} (r : Outcome A) (handler : string -> Outcome A)
  : Outcome A :=
  match r with
  | Returned a => Returned a
  | Thrown e => handler e
  end.

Definition andThen {A B : Type} (r : Outcome A) (k : A -> Outcome B)
  : Outcome B :=
  match r with
  | Returned a => k a
  | Thrown e => Thrown e
  end.

Definition tokenUrl : string := "https://oauth2.googleapis.com/token".

Definition filesUrl : string := "https://www.googleapis.com/drive/v3/files".

Definition bearer (accessToken : string) : string * string :=
  ("Authorization", "Bearer " ++ accessToken).

Section Wrappers.

Variable fetch : Request -> Outcome Response.

(** [Schema.parse(JSON.parse(text))] and [Schema.parse(await
    response.json())] for each schema: the parsed value, or what the parse
    throws. *)
Variable parseTokens : string -> Outcome Tokens.
Variable parseTokenError : string -> Outcome TokenError.
Variable parseDriveErrorMessage : string -> Outcome string.
Variable parseFiles : string -> Outcome (list DriveFile).
Variable parseFileInfo : string -> Outcome DriveFileInfo.
Variable parseFolder : string -> Outcome CreateFolderResponse.

Definition exchangeRequest (params : TokenExchangeParams) : Request :=
  {| url := tokenUrl;
     searchParams := [];
     method := "POST";
     headers := [("Content-Type", "application/x-www-form-urlencoded")];
     body := FormBody [("client_id", tx_clientId params);
                       ("client_secret", tx_clientSecret params);
                       ("code", tx_code params);
                       ("grant_type", "authorization_code");
                       ("redirect_uri", tx_redirectUri params)] |}.

Definition exchangeCodeForTokens (params : TokenExchangeParams)
  : Outcome Tokens :=
  andThen (fetch (exchangeRequest params))
    (fun tokenResponse =>
       if negb (ok tokenResponse)
       then
         let errorText := text tokenResponse in
         andThen
           (catching (parseTokenError errorText)
              (fun _ => Thrown ("Token exchange failed: " ++ errorText)))
           (fun errorData =>
              Thrown ("OAuth error: " ++ error errorData
                      ++ match error_description errorData with
                         | Some description =>
                             if truthy description then " - " ++ description
                             else ""
                         | None => ""
                         end))
       else parseTokens (text tokenResponse)).

Definition refreshRequest (params : TokenExchangeParams) : Request :=
  {| url := tokenUrl;
     searchParams := [];
     method := "POST";
     headers := [("Content-Type", "application/x-www-form-urlencoded")];
     body := FormBody [("client_id", tx_clientId params);
                       ("client_secret", tx_clientSecret params);
                       ("refresh_token", tx_code params);
                       ("grant_type", "refresh_token")] |}.

Definition refreshAccessToken (params : TokenExchangeParams)
  : Outcome Tokens :=
  andThen (fetch (refreshRequest params))
    (fun tokenResponse =>
       if negb (ok tokenResponse)
       then
         let errorText := text tokenResponse in
         andThen
           (catching (parseTokenError errorText)
              (fun _ => Thrown ("Token refresh failed: " ++ errorText)))
           (fun errorData =>
              Thrown ("OAuth error: " ++ error errorData
                      ++ match error_description errorData with
                         | Some description =>
                             if truthy description then " - " ++ description
                             else ""
                         | None => ""
                         end))
       else parseTokens (text tokenResponse)).

(** [queryParts.join(' and ')]. *)
Definition listQuery (params : DriveListFilesParams) : string :=
  let queryParts :=
    app ["'" ++ parentFolderId params ++ "' in parents"; "trashed=false"]
        match mimeType params with
        | Some mime => if truthy mime then ["mimeType='" ++ mime ++ "'"] else []
        | None => []
        end in
  String.concat " and " queryParts.

Definition listRequest (params : DriveListFilesParams) : Request :=
  {| url := filesUrl;
     searchParams :=
       [("q", listQuery params);
        ("fields", orElseOpt (fields params)
                             "files(id,name,webViewLink,createdTime)");
        ("orderBy", orElseOpt (orderBy params) "name")];
     method := "GET";
     headers := [bearer (accessToken params)];
     body := NoBody |}.

Definition listDriveFiles (params : DriveListFilesParams)
  : Outcome (list DriveFile) :=
  andThen (fetch (listRequest params))
    (fun listResponse =>
       if negb (ok listResponse)
       then
         let errorText := text listResponse in
         catching
           (andThen (parseDriveErrorMessage errorText)
              (fun message => Thrown ("Drive API error: " ++ message)))
           (fun _ => Thrown ("Failed to list files: " ++ errorText))
       else parseFiles (text listResponse)).

Definition fileInfoRequest (fileId accessToken : string)
  (fields : option string) : Request :=
  {| url := "https://www.googleapis.com/drive/v3/files/" ++ fileId
            ++ "?fields="
            ++ match fields with
               | Some given => given
               | None => "id,name,mimeType,parents"
               end;
     searchParams := [];
     method := "GET";
     headers := [bearer accessToken];
     body := NoBody |}.

Definition getDriveFileInfo (fileId accessToken : string)
  (fields : option string) : Outcome DriveFileInfo :=
  andThen (fetch (fileInfoRequest fileId accessToken fields))
    (fun response =>
       if negb (ok response)
       then Thrown ("Failed to get file info: " ++ text response)
       else parseFileInfo (text response)).

Definition createFolderRequest (params : CreateFolderParams) : Request :=
  {| url := "https://www.googleapis.com/drive/v3/files?fields=id,name,webViewLink";
     searchParams := [];
     method := "POST";
     headers := [bearer (create_accessToken params);
                 ("Content-Type", "application/json")];
     body := FolderMetadataBody (create_name params)
                                "application/vnd.google-apps.folder"
                                [create_parentId params] |}.

Definition createDriveFolder (params : CreateFolderParams)
  : Outcome CreateFolderResponse :=
  andThen (fetch (createFolderRequest params))
    (fun createResponse =>
       if negb (ok createResponse)
       then Thrown ("Failed to create folder: " ++ text createResponse)
       else parseFolder (text createResponse)).

Definition deleteRequest (fileId accessToken : string) : Request :=
  {| url := "https://www.googleapis.com/drive/v3/files/" ++ fileId;
     searchParams := [];
     method := "DELETE";
     headers := [bearer accessToken];
     body := NoBody |}.

Definition deleteDriveFile (fileId accessToken : string) : Outcome unit :=
  andThen (fetch (deleteRequest fileId accessToken))
    (fun deleteResponse =>
       if negb (ok deleteResponse)
       then Thrown ("Failed to delete file: " ++ text deleteResponse)
       else Returned tt).

(** [callbackHandler]: the response, and the requests it made. *)
Definition callbackHandler (env : Env) (code oauthError : option string)
  : HttpResponse * list Request :=
  match GOOGLE_CLIENT_ID env, GOOGLE_CLIENT_SECRET env with
  | Some clientId, Some clientSecret =>
      if negb (truthy clientId) || negb (truthy clientSecret)
      then (json_ (ErrorBody "Missing required environment variables" None)
                  400, [])
      else if truthyOpt oauthError
      then (json_ (ErrorBody "OAuth error" oauthError) 400, [])
      else
        match code with
        | None => (json_ (ErrorBody "Missing authorization code" None) 400, [])
        | Some code =>
            if negb (truthy code)
            then (json_ (ErrorBody "Missing authorization code" None) 400, [])
            else
              let params :=
                {| tx_clientId := clientId;
                   tx_clientSecret := clientSecret;
                   tx_code := code;
                   tx_redirectUri :=
                     "http://localhost:3000/api/drive/callback" |} in
              match exchangeCodeForTokens params with
              | Thrown message =>
                  (json_ (ErrorBody
                            "Failed to exchange authorization code for tokens"
                            (Some message)) 500,
                   [exchangeRequest params])
              | Returned tokens =>
                  let noRefreshToken :=
                    (json_ (CallbackBody false None
                              "No refresh token received. This may happen if the app was already authorized. Try revoking access at https://myaccount.google.com/permissions and re-authorize."
                              (Some (if truthy (access_token tokens)
                                     then "Access token received"
                                     else "No access token")))
                           200,
                     [exchangeRequest params]) in
                  match refresh_token tokens with
                  | None => noRefreshToken
                  | Some refreshToken =>
                      if negb (truthy refreshToken) then noRefreshToken
                      else
                        (json_ (CallbackBody true (Some refreshToken)
                                  ("Refresh Token obtained! Add this to your .dev.vars file: GOOGLE_REFRESH_TOKEN="
                                   ++ refreshToken)
                                  None)
                               200,
                         [exchangeRequest params])
                  end
              end
        end
  | _, _ =>
      (json_ (ErrorBody "Missing required environment variables" None) 400,
       [])
  end.

End Wrappers.

End OAuth.

(** The client of [googleDrive.ts] made of the wrappers over [fetch]; the
    upload has a [fetch] of its own. *)
Definition fetchClient (fetch : OAuth.Request -> Outcome OAuth.Response)
  (parseTokens : string -> Outcome OAuth.Tokens)
  (parseTokenError : string -> Outcome OAuth.TokenError)
  (parseDriveErrorMessage : string -> Outcome string)
  (parseFiles : string -> Outcome (list DriveFile))
  (parseFileInfo : string -> Outcome DriveFileInfo)
  (uploadFetch : UploadRequest -> Outcome UploadResponse) : DriveClient :=
  {| refreshAccessToken :=
       fun params =>
         OAuth.andThen
           (OAuth.refreshAccessToken fetch parseTokens parseTokenError params)
           (fun tokens =>
              Returned {| access_token := OAuth.access_token tokens;
                          token_type := OAuth.token_type tokens |});
     getDriveFileInfo :=
       fun fileId accessToken fields =>
         OAuth.getDriveFileInfo fetch parseFileInfo fileId accessToken
                                (Some fields);
     listDriveFiles :=
       OAuth.listDriveFiles fetch parseDriveErrorMessage parseFiles;
     deleteDriveFile := OAuth.deleteDriveFile fetch;
     fetchUpload := uploadFetch |}.

(** The token endpoint refuses the grant. *)
Definition refusedGrant : OAuth.Response :=
  {| OAuth.ok := false; OAuth.text := "invalid_grant" |}.

(** A client over a [fetch] that gives [response] to every request. *)
Definition answering (response : OAuth.Response)
  (parseTokenError : string -> Outcome OAuth.TokenError) : DriveClient :=
  fetchClient (fun _ => Returned response)
              (fun _ => Thrown "Unexpected end of JSON input")
              parseTokenError
              (fun _ => Thrown "Unexpected end of JSON input")
              (fun _ => Thrown "Unexpected end of JSON input")
              (fun _ => Thrown "Unexpected end of JSON input")
              (fun _ => Thrown "fetch failed").

(** The environment of the callback: the client id and secret. *)
Definition callbackEnv : Env :=
  {| GOOGLE_CLIENT_ID := Some "client";
     GOOGLE_CLIENT_SECRET := Some "secret";
     GOOGLE_REFRESH_TOKEN := None;
     GOOGLE_DRIVE_DEFAULT_FOLDER_ID := None |}.

(** The parameters of the listing [listFolders] issues: folders only. *)
Definition folderListParams (parentFolderId accessToken : string)
  : DriveListFilesParams :=
  {| parentFolderId := parentFolderId; mimeType := Some folderMimeType;
     accessToken := accessToken; orderBy := None; fields := None |}.

(** The four bindings of the environment are set and not empty. *)
Definition envComplete (env : Env) : bool :=
  truthyOpt (GOOGLE_CLIENT_ID env) && truthyOpt (GOOGLE_CLIENT_SECRET env)
  && truthyOpt (GOOGLE_REFRESH_TOKEN env)
  && truthyOpt (GOOGLE_DRIVE_DEFAULT_FOLDER_ID env).

Definition missingEnvironment : HttpResponse :=
  json_ (ErrorBody "Missing required environment variables" None) 400.

(** A complete environment. *)
Definition someEnv : Env :=
  {| GOOGLE_CLIENT_ID := Some "client";
     GOOGLE_CLIENT_SECRET := Some "secret";
     GOOGLE_REFRESH_TOKEN := Some "refresh";
     GOOGLE_DRIVE_DEFAULT_FOLDER_ID := Some "R" |}.

(** The token refresh fails. *)
Definition expiredDrive : DriveClient :=
  {| refreshAccessToken := fun _ => Thrown "OAuth error: invalid_grant";
     getDriveFileInfo := fun fileId _ _ => lookupTable [("C", ["R"])] fileId;
     listDriveFiles := fun _ => Returned [];
     deleteDriveFile := fun _ _ => Returned tt;
     fetchUpload := fun _ => Thrown "fetch failed" |}.

Ltac run_async := cbv beta iota delta [bind await try_catch ret throw after].

(** ** General facts on the parent loop *)

Lemma forParents_neverThrows (check : string -> Async bool) parents :
  (forall p, neverThrows (check p)) -> neverThrows (forParents check parents).
Proof.
  intros Hcheck. induction parents as [|p rest IH]; simpl.
  - right. now exists false, [].
  - destruct (Hcheck p) as [E | (b & calls & E)]; rewrite E; simpl.
    + now left.
    + destruct b; simpl.
      * right. now exists true, (calls ++ [])%list.
      * destruct IH as [E' | (b' & calls' & E')]; rewrite E'.
        -- now left.
        -- right. now exists b', (calls ++ calls')%list.
Qed.

Lemma forParents_mono (check check' : string -> Async bool) parents r :
  (forall p r', check p = Some r' -> check' p = Some r') ->
  forParents check parents = Some r -> forParents check' parents = Some r.
Proof.
  intros Hmono. revert r. induction parents as [|p rest IH]; simpl; intros r H.
  - exact H.
  - destruct (check p) as [[[b|e] calls]|] eqn:E; simpl in H; try discriminate.
    + rewrite (Hmono _ _ E). simpl. destruct b; simpl in *; [exact H|].
      destruct (forParents check rest) as [[r1 calls1]|] eqn:E1;
        [|discriminate].
      now rewrite (IH _ eq_refl).
    + now rewrite (Hmono _ _ E).
Qed.

(** The loop stops at the first parent whose check returns [true]: the
    parents before it were checked, in order, and none after it. *)
Lemma forParents_first (check : string -> Async bool) before traces p tp rest :
  Forall2 (fun q t => check q = Some (Returned false, t)) before traces ->
  check p = Some (Returned true, tp) ->
  forParents check (before ++ p :: rest)%list
  = Some (Returned true, (concat traces ++ tp)%list).
Proof.
  intros Hbefore Hp.
  induction Hbefore as [|q t before traces Hq _ IH]; simpl.
  - rewrite Hp. simpl. now rewrite app_nil_r.
  - rewrite Hq. simpl. rewrite IH. now rewrite app_assoc.
Qed.

(** The loop returns [false] once every parent was checked, in order, and
    returned [false]. *)
Lemma forParents_exhausted (check : string -> Async bool) parents traces :
  Forall2 (fun q t => check q = Some (Returned false, t)) parents traces ->
  forParents check parents = Some (Returned false, concat traces).
Proof.
  intros H. induction H as [|q t parents traces Hq _ IH]; simpl.
  - reflexivity.
  - rewrite Hq. simpl. now rewrite IH.
Qed.

Lemma forParents_true_inv (check : string -> Async bool) parents calls :
  forParents check parents = Some (Returned true, calls) ->
  exists p tp, In p parents /\ check p = Some (Returned true, tp).
Proof.
  revert calls. induction parents as [|p rest IH]; simpl; intros calls H.
  - discriminate.
  - destruct (check p) as [[[b|e] tp]|] eqn:E; simpl in H; try discriminate.
    destruct b.
    + exists p, tp. auto.
    + destruct (forParents check rest) as [[r1 calls1]|] eqn:E1;
        [|discriminate].
      injection H as -> _.
      destruct (IH _ eq_refl) as (q & tq & Hin & Hq).
      exists q, tq. auto.
Qed.

Lemma forParents_false_inv (check : string -> Async bool) parents calls :
  forParents check parents = Some (Returned false, calls) ->
  forall p, In p parents -> exists tp, check p = Some (Returned false, tp).
Proof.
  revert calls. induction parents as [|p rest IH]; simpl; intros calls H q Hin.
  - contradiction.
  - destruct (check p) as [[[b|e] tp]|] eqn:E; simpl in H; try discriminate.
    destruct b; simpl in H; [discriminate|].
    destruct (forParents check rest) as [[r1 calls1]|] eqn:E1;
      [|discriminate].
    injection H as -> _.
    destruct Hin as [<- | Hin].
    + now exists tp.
    + exact (IH _ eq_refl q Hin).
Qed.

Lemma forParents_settles (check : string -> Async bool) parents :
  (forall p, In p parents -> settles (check p)) ->
  settles (forParents check parents).
Proof.
  induction parents as [|p rest IH]; simpl; intros H.
  - now exists false, [].
  - destruct (H p (or_introl eq_refl)) as (b & calls & E). rewrite E. simpl.
    destruct b; simpl.
    + now exists true, (calls ++ [])%list.
    + destruct IH as (b' & calls' & E'); [intros; apply H; auto|].
      rewrite E'. now exists b', (calls ++ calls')%list.
Qed.

(** ** The folder scope guard *)

Section ScopeGuard.

Variable drive : DriveClient.
Variables defaultFolderId accessToken : string.

Local Abbreviation guard := (walk drive defaultFolderId accessToken).
Local Abbreviation lookupOf := (lookup accessToken).
Local Abbreviation parentList := (parentsOf drive accessToken).
Local Abbreviation inScope := (reaches drive defaultFolderId accessToken).
Local Abbreviation shallow := (finiteDepth drive defaultFolderId accessToken).

Lemma walk_unfold fuel folderId :
  guard (S fuel) folderId
  = if folderId =? defaultFolderId then ret true
    else
      try_catch
        (data <- await (lookupOf folderId)
                       (getDriveFileInfo drive folderId accessToken "parents") ;;
         match info_parents data with
         | None => ret false
         | Some [] => ret false
         | Some parents => forParents (guard fuel) parents
         end)
        (fun _ => ret false).
Proof. reflexivity. Qed.

Lemma walk_neverThrows fuel folderId : neverThrows (guard fuel folderId).
Proof.
  revert folderId. induction fuel as [|fuel IH]; intros folderId.
  - now left.
  - rewrite walk_unfold.
    destruct (folderId =? defaultFolderId).
    + right. now exists true, [].
    + destruct (getDriveFileInfo drive folderId accessToken "parents")
        as [data|e]; run_async.
      * destruct (info_parents data) as [[|p rest]|];
          try (right; now exists false, [lookupOf folderId]).
        destruct (forParents_neverThrows (guard fuel) (p :: rest) IH)
          as [E | (b & calls & E)]; rewrite E.
        -- now left.
        -- right. now exists b, ([lookupOf folderId] ++ calls)%list.
      * right. now exists false, ([lookupOf folderId] ++ [])%list.
Qed.

(** One step of the walk from a folder other than the default one: the
    lookup, then the loop over the parents it returned. *)
Lemma walk_step fuel folderId :
  folderId <> defaultFolderId ->
  guard (S fuel) folderId
  = after (lookupOf folderId) (forParents (guard fuel) (parentList folderId)).
Proof.
  intros Hne. rewrite walk_unfold. unfold parentsOf.
  apply String.eqb_neq in Hne. rewrite Hne.
  destruct (getDriveFileInfo drive folderId accessToken "parents")
    as [data|e]; run_async; [|reflexivity].
  destruct (info_parents data) as [[|p rest]|]; try reflexivity.
  destruct (forParents_neverThrows (guard fuel) (p :: rest)
                                   (walk_neverThrows fuel))
    as [E | (b & calls & E)]; now rewrite E.
Qed.

Lemma walk_self fuel : guard (S fuel) defaultFolderId = Some (Returned true, []).
Proof. rewrite walk_unfold. now rewrite String.eqb_refl. Qed.

Lemma walk_S fuel folderId r :
  guard fuel folderId = Some r -> guard (S fuel) folderId = Some r.
Proof.
  revert folderId r. induction fuel as [|fuel IH]; intros folderId r H.
  - discriminate.
  - destruct (String.eqb_spec folderId defaultFolderId) as [->|Hne].
    + now rewrite walk_self in *.
    + rewrite walk_step in * by assumption.
      destruct (forParents (guard fuel) (parentList folderId)) as [r1|] eqn:E;
        [|discriminate].
      now rewrite (forParents_mono _ (guard (S fuel)) _ _ IH E).
Qed.

Lemma walk_more_fuel fuel fuel' folderId r :
  fuel <= fuel' -> guard fuel folderId = Some r -> guard fuel' folderId = Some r.
Proof.
  intros Hle H. induction Hle as [|fuel' _ IH]; [exact H|].
  now apply walk_S.
Qed.

(** A [true] verdict is sound: some parent chain reaches the default
    folder. *)
Lemma walk_true_reaches fuel folderId calls :
  guard fuel folderId = Some (Returned true, calls) -> inScope folderId.
Proof.
  revert folderId calls. induction fuel as [|fuel IH]; intros folderId calls H.
  - discriminate.
  - destruct (String.eqb_spec folderId defaultFolderId) as [->|Hne].
    + constructor.
    + rewrite walk_step in H by assumption.
      destruct (forParents (guard fuel) (parentList folderId))
        as [[r1 calls1]|] eqn:E; [|discriminate].
      injection H as -> _.
      destruct (forParents_true_inv _ _ _ E) as (p & tp & Hin & Hp).
      exact (reaches_parent _ _ _ _ _ Hin (IH _ _ Hp)).
Qed.

(** A [false] verdict is complete: no parent chain reaches the default
    folder. *)
Lemma walk_false_unreachable fuel folderId calls :
  guard fuel folderId = Some (Returned false, calls) -> ~ inScope folderId.
Proof.
  revert folderId calls. induction fuel as [|fuel IH]; intros folderId calls H.
  - discriminate.
  - destruct (String.eqb_spec folderId defaultFolderId) as [->|Hne].
    + now rewrite walk_self in H.
    + rewrite walk_step in H by assumption.
      destruct (forParents (guard fuel) (parentList folderId))
        as [[r1 calls1]|] eqn:E; [|discriminate].
      injection H as -> _.
      intros Hreach. inversion Hreach as [Heq | f p Hin Hp Heq];
        [congruence|subst f].
      destruct (forParents_false_inv _ _ _ E p Hin) as (tp & Htp).
      exact (IH _ _ Htp Hp).
Qed.

(** One amount of fuel serves every parent of a list. *)
Lemma walk_common_fuel parents :
  (forall p, In p parents -> exists fuel, settles (guard fuel p)) ->
  exists fuel, forall p, In p parents -> settles (guard fuel p).
Proof.
  induction parents as [|q rest IH]; intros H.
  - exists 0. intros p [].
  - destruct (H q (or_introl eq_refl)) as (n & b & calls & Hq).
    destruct IH as (m & Hm); [intros; apply H; now right|].
    exists (Nat.max n m). intros p [<- | Hin].
    + exists b, calls. apply (walk_more_fuel n); [lia|exact Hq].
    + destruct (Hm p Hin) as (b' & calls' & Hp).
      exists b', calls'. apply (walk_more_fuel m); [lia|exact Hp].
Qed.

(** On a parent graph of finite depth the walk returns. *)
Lemma walk_terminates folderId :
  shallow folderId -> exists fuel, settles (guard fuel folderId).
Proof.
  induction 1 as [folderId _ IH].
  destruct (String.eqb_spec folderId defaultFolderId) as [->|Hne].
  - exists 1, true, []. apply walk_self.
  - destruct (walk_common_fuel (parentList folderId) (IH Hne)) as (fuel & Hall).
    destruct (forParents_settles (guard fuel) _ Hall) as (b & calls & E).
    exists (S fuel), b, (lookupOf folderId :: calls).
    rewrite walk_step by assumption. now rewrite E.
Qed.

(** All the calls of the guard are parent lookups. *)
Lemma walk_calls_lookups fuel folderId :
  callsAll (fun c => isGetDriveFileInfo c = true) (guard fuel folderId).
Proof.
  revert folderId. induction fuel as [|fuel IH]; intros folderId; [exact I|].
  destruct (String.eqb_spec folderId defaultFolderId) as [->|Hne].
  - rewrite walk_self. constructor.
  - rewrite walk_step by assumption.
    assert (H : callsAll (fun c => isGetDriveFileInfo c = true)
                         (forParents (guard fuel) (parentList folderId))).
    { induction (parentList folderId) as [|p rest IHp]; simpl.
      - constructor.
      - specialize (IH p).
        destruct (guard fuel p) as [[[b|e] calls]|]; simpl in *; auto.
        destruct b; simpl.
        + now rewrite app_nil_r.
        + destruct (forParents (guard fuel) rest) as [[r1 calls1]|];
            simpl in *; auto.
          apply Forall_app. auto. }
    destruct (forParents (guard fuel) (parentList folderId)) as [[r1 calls1]|];
      simpl in *; auto.
Qed.

End ScopeGuard.

Lemma forParents_false_traces (check : string -> Async bool) parents calls :
  forParents check parents = Some (Returned false, calls) ->
  exists traces,
    Forall2 (fun q t => check q = Some (Returned false, t)) parents traces
    /\ calls = concat traces.
Proof.
  revert calls. induction parents as [|p rest IH]; simpl; intros calls H.
  - injection H as <-. exists []. split; constructor.
  - destruct (check p) as [[[b|e] tp]|] eqn:E; simpl in H; try discriminate.
    destruct b; simpl in H; [discriminate|].
    destruct (forParents check rest) as [[r1 calls1]|] eqn:E1;
      [|discriminate].
    injection H as -> <-.
    destruct (IH _ eq_refl) as (traces & Hall & ->).
    exists (tp :: traces). split; [now constructor|reflexivity].
Qed.

(** *** The walk on the concrete clients *)

Lemma scenario_C_finiteDepth : finiteDepth scenarioDrive "R" "token" "C".
Proof.
  constructor. intros _ p [<- | []].
  constructor. intros Hne. now contradiction Hne.
Qed.

Lemma scenario_C_reaches : reaches scenarioDrive "R" "token" "C".
Proof.
  apply reaches_parent with (parentId := "R"); [now left|constructor].
Qed.

Lemma cyclic_B_runs_forever fuel :
  isUnderDefaultFolder cyclicSiblingDrive fuel "B" "R" "token" = None.
Proof.
  induction fuel as [|fuel IH]; [reflexivity|].
  change (walk cyclicSiblingDrive "R" "token" (S fuel) "B" = None).
  rewrite walk_step by discriminate.
  change (parentsOf cyclicSiblingDrive "token" "B") with ["B"].
  simpl. unfold walk. now rewrite IH.
Qed.

Lemma cyclic_A_runs_forever fuel :
  isUnderDefaultFolder cyclicSiblingDrive fuel "A" "R" "token" = None.
Proof.
  destruct fuel as [|fuel]; [reflexivity|].
  change (walk cyclicSiblingDrive "R" "token" (S fuel) "A" = None).
  rewrite walk_step by discriminate.
  change (parentsOf cyclicSiblingDrive "token" "A") with ["B"; "R"].
  simpl. unfold walk. now rewrite cyclic_B_runs_forever.
Qed.

Lemma twoCycle_runs_forever fuel :
  isUnderDefaultFolder twoCycleDrive fuel "X" "R" "token" = None
  /\ isUnderDefaultFolder twoCycleDrive fuel "Y" "R" "token" = None.
Proof.
  induction fuel as [|fuel [IHx IHy]]; [split; reflexivity|].
  split.
  - change (walk twoCycleDrive "R" "token" (S fuel) "X" = None).
    rewrite walk_step by discriminate.
    change (parentsOf twoCycleDrive "token" "X") with ["Y"].
    simpl. unfold walk. now rewrite IHy.
  - change (walk twoCycleDrive "R" "token" (S fuel) "Y" = None).
    rewrite walk_step by discriminate.
    change (parentsOf twoCycleDrive "token" "Y") with ["X"].
    simpl. unfold walk. now rewrite IHx.
Qed.

Lemma chain_descends accessToken depth :
  walk chainDrive "R" accessToken (S depth) (deepFolder depth)
  = Some (Returned true, descent accessToken depth).
Proof.
  induction depth as [|depth IH]; [reflexivity|].
  rewrite walk_step by discriminate.
  change (parentsOf chainDrive accessToken (deepFolder (S depth)))
    with [deepFolder depth].
  cbn [forParents]. rewrite IH. simpl.
  now rewrite app_nil_r.
Qed.

Lemma descent_length accessToken depth :
  length (descent accessToken depth) = depth.
Proof. induction depth as [|depth IH]; simpl; congruence. Qed.

(** The scenarios of the specification, run. *)
Example scenario_root_no_call :
  isUnderDefaultFolder scenarioDrive 1 "R" "R" "token"
  = Some (Returned true, []).
Proof. reflexivity. Qed.

Example scenario_child_one_call :
  isUnderDefaultFolder scenarioDrive 2 "C" "R" "token"
  = Some (Returned true, [lookup "token" "C"]).
Proof. reflexivity. Qed.

Example scenario_orphan_parent_two_calls :
  isUnderDefaultFolder scenarioDrive 2 "G" "R" "token"
  = Some (Returned false, [lookup "token" "G"; lookup "token" "P"]).
Proof. reflexivity. Qed.

Example scenario_update_plan :
  findExistingFile scenarioDrive "a.txt" "F" "token"
  = Some (Returned (Some "x"),
          [CallListDriveFiles (searchParams "F" "token")]).
Proof. reflexivity. Qed.

Example scenario_create_plan :
  findExistingFile cyclicSiblingDrive "a.txt" "F" "token"
  = Some (Returned None, [CallListDriveFiles (searchParams "F" "token")]).
Proof. reflexivity. Qed.

(** Whenever the guard returns, its verdict is [true] exactly when the
    parent chain of the folder reaches the default folder. *)
Theorem isUnderDefaultFolder_verdict_is_reachability
  (drive : DriveClient) (fuel : nat)
  (folderId defaultFolderId accessToken : string)
  (verdict : bool) (calls : list Call) :
  isUnderDefaultFolder drive fuel folderId defaultFolderId accessToken
  = Some (Returned verdict, calls) ->
  verdict = true <-> reaches drive defaultFolderId accessToken folderId.
Proof.
  intros H. destruct verdict.
  - split; [intros _|reflexivity].
    exact (walk_true_reaches _ _ _ _ _ _ H).
  - split; [discriminate|].
    intros Hreach. now destruct (walk_false_unreachable _ _ _ _ _ _ H).
Qed.

Lemma isUnderDefaultFolder_verdict_is_reachability_witness :
  false = true <-> reaches scenarioDrive "R" "token" "G".
Proof.
  apply (isUnderDefaultFolder_verdict_is_reachability
           scenarioDrive 2 "G" "R" "token" false
           [lookup "token" "G"; lookup "token" "P"]).
  reflexivity.
Defined.

(** ** The claims on the folder scope guard *)

(** C1 (as amended). For every folder whose parent chain, followed through
    the parent lists the client returns, reaches the default folder, and
    whose parent graph is of finite depth, [isUnderDefaultFolder] returns
    [true].  The parents are checked in the order of the lookup's list: the
    walk returns [true] at the first parent that is in scope, after the
    calls of the parents before it and with no call for a parent after it,
    and it returns [false] only when every parent was checked and returned
    [false]. *)
Theorem isUnderDefaultFolder_true_on_reached_root
  (drive : DriveClient) (folderId defaultFolderId accessToken : string) :
  (finiteDepth drive defaultFolderId accessToken folderId ->
   reaches drive defaultFolderId accessToken folderId ->
   exists fuel calls,
     isUnderDefaultFolder drive fuel folderId defaultFolderId accessToken
     = Some (Returned true, calls))
  /\ (forall fuel before parentId rest traces calls,
         folderId <> defaultFolderId ->
         parentsOf drive accessToken folderId
         = (before ++ parentId :: rest)%list ->
         Forall2
           (fun q t =>
              isUnderDefaultFolder drive fuel q defaultFolderId accessToken
              = Some (Returned false, t))
           before traces ->
         isUnderDefaultFolder drive fuel parentId defaultFolderId accessToken
         = Some (Returned true, calls) ->
         isUnderDefaultFolder drive (S fuel) folderId defaultFolderId
                              accessToken
         = Some (Returned true,
                 (lookup accessToken folderId :: concat traces ++ calls)%list))
  /\ (forall fuel calls,
         folderId <> defaultFolderId ->
         isUnderDefaultFolder drive (S fuel) folderId defaultFolderId
                              accessToken
         = Some (Returned false, calls) ->
         exists traces,
           Forall2
             (fun q t =>
                isUnderDefaultFolder drive fuel q defaultFolderId accessToken
                = Some (Returned false, t))
             (parentsOf drive accessToken folderId) traces
           /\ calls = lookup accessToken folderId :: concat traces).
Proof.
  split; [|split].
  - intros Hfinite Hreach.
    destruct (walk_terminates _ _ _ _ Hfinite) as (fuel & b & calls & H).
    exists fuel, calls. destruct b; [exact H|].
    now destruct (walk_false_unreachable _ _ _ _ _ _ H).
  - intros fuel before parentId rest traces calls Hne Hparents Hbefore Hp.
    change (walk drive defaultFolderId accessToken (S fuel) folderId
            = Some (Returned true,
                    (lookup accessToken folderId :: concat traces ++ calls)%list)).
    rewrite walk_step by assumption. rewrite Hparents.
    now rewrite (forParents_first (walk drive defaultFolderId accessToken fuel)
                                  before traces parentId calls rest Hbefore Hp).
  - intros fuel calls Hne H.
    change (walk drive defaultFolderId accessToken (S fuel) folderId
            = Some (Returned false, calls)) in H.
    rewrite walk_step in H by assumption.
    destruct (forParents (walk drive defaultFolderId accessToken fuel)
                         (parentsOf drive accessToken folderId))
      as [[r1 calls1]|] eqn:E; [|discriminate].
    injection H as -> <-.
    destruct (forParents_false_traces _ _ _ E) as (traces & Hall & ->).
    now exists traces.
Qed.

Lemma isUnderDefaultFolder_true_on_reached_root_witness :
  exists fuel calls,
    isUnderDefaultFolder scenarioDrive fuel "C" "R" "token"
    = Some (Returned true, calls).
Proof.
  exact (proj1 (isUnderDefaultFolder_true_on_reached_root
                  scenarioDrive "C" "R" "token")
               scenario_C_finiteDepth scenario_C_reaches).
Defined.

(** C1, as stated, fails: the parent chain of [A] reaches [R] through its
    second parent, and the walk never returns, because the walk of its first
    parent [B] never does. *)
Lemma isUnderDefaultFolder_reached_root_not_returned :
  reaches cyclicSiblingDrive "R" "token" "A"
  /\ (forall fuel,
         isUnderDefaultFolder cyclicSiblingDrive fuel "A" "R" "token" = None).
Proof.
  split.
  - apply reaches_parent with (parentId := "R"); [right; now left|constructor].
  - exact cyclic_A_runs_forever.
Qed.

(** C2. [isUnderDefaultFolder] never throws: whatever the client does, the
    guard is still running or has returned a boolean.  A parent lookup that
    fails on a folder other than the default one makes the guard return
    [false] after that one call; when the failed lookup is that of a parent
    in a list, the branch counts as [false] and the loop goes on with the
    parents after it. *)
Theorem isUnderDefaultFolder_never_throws
  (drive : DriveClient) (fuel : nat)
  (folderId defaultFolderId accessToken : string) :
  neverThrows
    (isUnderDefaultFolder drive fuel folderId defaultFolderId accessToken)
  /\ (forall message,
         folderId <> defaultFolderId ->
         getDriveFileInfo drive folderId accessToken "parents"
         = Thrown message ->
         isUnderDefaultFolder drive (S fuel) folderId defaultFolderId
                              accessToken
         = Some (Returned false, [lookup accessToken folderId]))
  /\ (forall message childId rest,
         childId <> defaultFolderId ->
         folderId <> defaultFolderId ->
         parentsOf drive accessToken childId = folderId :: rest ->
         getDriveFileInfo drive folderId accessToken "parents"
         = Thrown message ->
         isUnderDefaultFolder drive (S (S fuel)) childId defaultFolderId
                              accessToken
         = after (lookup accessToken childId)
             (after (lookup accessToken folderId)
                (forParents
                   (fun parentId =>
                      isUnderDefaultFolder drive (S fuel) parentId
                                           defaultFolderId accessToken)
                   rest))).
Proof.
  assert (Hfail : forall n message,
             folderId <> defaultFolderId ->
             getDriveFileInfo drive folderId accessToken "parents"
             = Thrown message ->
             walk drive defaultFolderId accessToken (S n) folderId
             = Some (Returned false, [lookup accessToken folderId])).
  { intros n message Hne Hthrown.
    rewrite walk_step by assumption. unfold parentsOf. now rewrite Hthrown. }
  split; [|split].
  - apply walk_neverThrows.
  - intros message. apply Hfail.
  - intros message childId rest Hchild Hne Hparents Hthrown.
    change (walk drive defaultFolderId accessToken (S (S fuel)) childId
            = after (lookup accessToken childId)
                (after (lookup accessToken folderId)
                   (forParents (walk drive defaultFolderId accessToken (S fuel))
                               rest))).
    rewrite walk_step by assumption. rewrite Hparents.
    cbn [forParents]. rewrite (Hfail fuel message Hne Hthrown).
    cbn [bind].
    now destruct (forParents (walk drive defaultFolderId accessToken (S fuel))
                             rest) as [[r calls]|].
Qed.

Lemma isUnderDefaultFolder_never_throws_witness :
  isUnderDefaultFolder unreachableDrive 1 "G" "R" "token"
  = Some (Returned false, [lookup "token" "G"]).
Proof.
  apply (proj1 (proj2 (isUnderDefaultFolder_never_throws
                         unreachableDrive 0 "G" "R" "token"))
           "Failed to get file info: network error").
  - discriminate.
  - reflexivity.
Defined.

(** C4. On the default folder itself the guard returns [true] at once,
    with no client call. *)
Theorem isUnderDefaultFolder_root_without_calls
  (drive : DriveClient) (fuel : nat) (rootId accessToken : string) :
  isUnderDefaultFolder drive (S fuel) rootId rootId accessToken
  = Some (Returned true, []).
Proof. apply walk_self. Qed.

(** C5. A folder other than the default one whose lookup returns an empty
    parent list, or none, is not in scope: the guard returns [false] after
    that one lookup. *)
Theorem isUnderDefaultFolder_orphan_out_of_scope
  (drive : DriveClient) (fuel : nat)
  (folderId defaultFolderId accessToken : string) (data : DriveFileInfo) :
  folderId <> defaultFolderId ->
  getDriveFileInfo drive folderId accessToken "parents" = Returned data ->
  info_parents data = None \/ info_parents data = Some [] ->
  isUnderDefaultFolder drive (S fuel) folderId defaultFolderId accessToken
  = Some (Returned false, [lookup accessToken folderId]).
Proof.
  intros Hne Hdata Hparents.
  change (walk drive defaultFolderId accessToken (S fuel) folderId
          = Some (Returned false, [lookup accessToken folderId])).
  rewrite walk_step by assumption. unfold parentsOf. rewrite Hdata.
  now destruct Hparents as [-> | ->].
Qed.

Lemma isUnderDefaultFolder_orphan_out_of_scope_witness :
  isUnderDefaultFolder scenarioDrive 1 "P" "R" "token"
  = Some (Returned false, [lookup "token" "P"]).
Proof.
  apply (isUnderDefaultFolder_orphan_out_of_scope
           scenarioDrive 0 "P" "R" "token" (folderInfo "P" (Some []))).
  - discriminate.
  - reflexivity.
  - right. reflexivity.
Defined.

(** C8 (as amended). [isUnderDefaultFolder] has no bound on its recursion
    depth.  It returns, with a boolean, on every parent graph of finite
    depth, however deep: on a chain of any depth that ends at the default
    folder it returns [true] after one lookup per level. *)
Theorem isUnderDefaultFolder_returns_on_finite_depth :
  (forall (drive : DriveClient) (folderId defaultFolderId accessToken : string),
      finiteDepth drive defaultFolderId accessToken folderId ->
      exists fuel verdict calls,
        isUnderDefaultFolder drive fuel folderId defaultFolderId accessToken
        = Some (Returned verdict, calls))
  /\ (forall (depth : nat) (accessToken : string),
         isUnderDefaultFolder chainDrive (S depth) (deepFolder depth) "R"
                              accessToken
         = Some (Returned true, descent accessToken depth)
         /\ length (descent accessToken depth) = depth).
Proof.
  split.
  - intros drive folderId defaultFolderId accessToken Hfinite.
    exact (walk_terminates _ _ _ _ Hfinite).
  - intros depth accessToken. split.
    + apply chain_descends.
    + apply descent_length.
Qed.

Lemma isUnderDefaultFolder_returns_on_finite_depth_witness :
  exists fuel verdict calls,
    isUnderDefaultFolder scenarioDrive fuel "C" "R" "token"
    = Some (Returned verdict, calls).
Proof.
  exact (proj1 isUnderDefaultFolder_returns_on_finite_depth
               scenarioDrive "C" "R" "token" scenario_C_finiteDepth).
Defined.

(** C8, as stated, fails: on two folders that are each other's parent the
    guard never returns, so it does not return [false] either. *)
Lemma isUnderDefaultFolder_cycle_not_cut :
  parentsOf twoCycleDrive "token" "X" = ["Y"]
  /\ parentsOf twoCycleDrive "token" "Y" = ["X"]
  /\ (forall fuel,
         isUnderDefaultFolder twoCycleDrive fuel "X" "R" "token" = None).
Proof.
  split; [reflexivity|split; [reflexivity|]].
  intros fuel. apply twoCycle_runs_forever.
Qed.

(** ** The calls of a computation *)

Section Calls.

Context {A B : Type} (P : Call -> Prop).

Lemma callsAll_ret (a : A) : callsAll P (ret a).
Proof. constructor. Qed.

Lemma callsAll_throw message : callsAll P (@throw A message).
Proof. constructor. Qed.

Lemma callsAll_await (c : Call) (r : Outcome A) : P c -> callsAll P (await c r).
Proof. intros H. simpl. auto. Qed.

Lemma callsAll_bind_returned (m : Async A) (k : A -> Async B) :
  callsAll P m ->
  (forall a calls, m = Some (Returned a, calls) -> callsAll P (k a)) ->
  callsAll P (bind m k).
Proof.
  intros Hm Hk. destruct m as [[[a|e] calls]|]; simpl in *; auto.
  specialize (Hk a calls eq_refl).
  destruct (k a) as [[r calls']|]; simpl in *; auto.
  apply Forall_app. auto.
Qed.

Lemma callsAll_bind (m : Async A) (k : A -> Async B) :
  callsAll P m -> (forall a, callsAll P (k a)) -> callsAll P (bind m k).
Proof. intros Hm Hk. apply callsAll_bind_returned; auto. Qed.

Lemma callsAll_try_catch (m : Async A) (handler : string -> Async A) :
  callsAll P m -> (forall e, callsAll P (handler e)) ->
  callsAll P (try_catch m handler).
Proof.
  intros Hm Hh. destruct m as [[[a|e] calls]|]; simpl in *; auto.
  specialize (Hh e). destruct (handler e) as [[r calls']|]; simpl in *; auto.
  apply Forall_app. auto.
Qed.

End Calls.

Lemma callsAll_weaken {A : Type} (P Q : Call -> Prop) (m : Async A) :
  (forall c, P c -> Q c) -> callsAll P m -> callsAll Q m.
Proof.
  intros HPQ. destruct m as [[r calls]|]; simpl; auto.
  apply Forall_impl. exact HPQ.
Qed.

Lemma bind_ret_l {A B : Type} (a : A) (k : A -> Async B) :
  bind (ret a) k = k a.
Proof. unfold bind, ret. now destruct (k a) as [[r calls]|]. Qed.

Lemma bind_ext {A B : Type} (m : Async A) (k k' : A -> Async B) :
  (forall a, k a = k' a) -> bind m k = bind m k'.
Proof.
  intros H. destruct m as [[[a|e] calls]|]; simpl; [|reflexivity..].
  now rewrite H.
Qed.

(** ** The upload resolution *)

Section Upload.

Variable drive : DriveClient.

Lemma getAccessToken_calls credentials :
  callsAll (fun c => exists params, c = CallRefreshAccessToken params)
           (getAccessToken drive credentials).
Proof.
  unfold getAccessToken. apply callsAll_try_catch.
  - apply callsAll_bind.
    + apply callsAll_await. eauto.
    + intros a. destruct (truthy (access_token a)).
      * apply callsAll_ret.
      * apply callsAll_throw.
  - intros e. apply callsAll_throw.
Qed.

Lemma validateFolder_calls fuel folderId defaultFolderId accessToken :
  callsAll (fun c => isGetDriveFileInfo c = true)
           (validateFolder drive fuel folderId defaultFolderId accessToken).
Proof.
  unfold validateFolder.
  destruct (negb (truthy folderId) || (folderId =? defaultFolderId)).
  - apply callsAll_ret.
  - apply callsAll_try_catch.
    + apply callsAll_bind; [now apply callsAll_await|].
      intros _. apply callsAll_bind; [apply walk_calls_lookups|].
      intros b. destruct (negb b); apply callsAll_ret.
    + intros e. apply callsAll_ret.
Qed.

Lemma validateFolder_fast fuel defaultFolderId accessToken folderId :
  folderId = "" \/ folderId = defaultFolderId ->
  validateFolder drive fuel folderId defaultFolderId accessToken
  = Some (Returned {| valid := true; validation_error := None;
                      validation_details := None |}, []).
Proof.
  unfold validateFolder. intros [-> | ->].
  - reflexivity.
  - rewrite String.eqb_refl. now rewrite orb_true_r.
Qed.

Lemma findExistingFile_calls fileName parentFolderId accessToken :
  callsAll (fun c => c = CallListDriveFiles
                           (searchParams parentFolderId accessToken))
           (findExistingFile drive fileName parentFolderId accessToken).
Proof.
  unfold findExistingFile. apply callsAll_try_catch.
  - apply callsAll_bind; [now apply callsAll_await|].
    intros files.
    destruct (filter (fun file => file_name file =? fileName) files);
      apply callsAll_ret.
  - intros e. apply callsAll_ret.
Qed.

Lemma uploadFile_calls file parentFolderId existingFileId accessToken :
  callsAll (fun c => c = CallFetchUpload
                           (uploadRequest file parentFolderId existingFileId
                                          accessToken))
           (uploadFile drive file parentFolderId existingFileId accessToken).
Proof.
  unfold uploadFile. apply callsAll_bind; [now apply callsAll_await|].
  intros r. destruct (ok r); [|apply callsAll_throw].
  destruct (json r); [apply callsAll_ret|apply callsAll_throw].
Qed.

(** The calls of an upload: the token refresh, the lookups of the folder
    validation, the listing of the search when [overwrite] is set, and the
    upload itself, built for the parent folder of the request. *)
Lemma processFileUpload_calls fuel file folderId overwrite credentials
  defaultFolderId :
  callsAll
    (fun c =>
       (exists params, c = CallRefreshAccessToken params)
       \/ (isGetDriveFileInfo c = true
           /\ orElse folderId defaultFolderId <> ""
           /\ orElse folderId defaultFolderId <> defaultFolderId)
       \/ (isListDriveFiles c = true /\ overwrite = true)
       \/ (exists existingFileId accessToken,
              c = CallFetchUpload
                    (uploadRequest file (orElse folderId defaultFolderId)
                                   existingFileId accessToken)
              /\ (overwrite = false -> existingFileId = None)))
    (processFileUpload drive fuel (Some file) folderId overwrite credentials
                       defaultFolderId).
Proof.
  unfold processFileUpload. apply callsAll_bind.
  - eapply callsAll_weaken; [|apply getAccessToken_calls]. intros c H. now left.
  - intros accessToken. apply callsAll_bind.
    + destruct (String.eqb_spec (orElse folderId defaultFolderId) "")
        as [E|Hne1].
      { rewrite validateFolder_fast by now left. constructor. }
      destruct (String.eqb_spec (orElse folderId defaultFolderId)
                                defaultFolderId) as [E|Hne2].
      { rewrite validateFolder_fast by now right. constructor. }
      eapply callsAll_weaken; [|apply validateFolder_calls].
      intros c H. right. left. auto.
    + intros v. destruct (negb (valid v)); [apply callsAll_ret|].
      apply callsAll_bind_returned; [|intros existingFileId rcalls Hresolved].
      * unfold resolveExistingFileId. destruct overwrite.
        -- eapply callsAll_weaken; [|apply findExistingFile_calls].
           intros c ->. right. right. left. auto.
        -- apply callsAll_ret.
      * apply callsAll_bind; [|intros; apply callsAll_ret].
        eapply callsAll_weaken; [|apply uploadFile_calls].
        intros c ->. right. right. right.
        exists existingFileId, accessToken. split; [reflexivity|].
        intros ->. simpl in Hresolved. now injection Hresolved as <- _.
Qed.

Lemma findExistingFile_listed fileName parentFolderId accessToken files :
  listDriveFiles drive (searchParams parentFolderId accessToken)
  = Returned files ->
  findExistingFile drive fileName parentFolderId accessToken
  = Some (Returned
            match filter (fun file => file_name file =? fileName) files with
            | first :: _ => Some (file_id first)
            | [] => None
            end,
          [CallListDriveFiles (searchParams parentFolderId accessToken)]).
Proof.
  intros Hlisted. unfold findExistingFile.
  change {| parentFolderId := parentFolderId; mimeType := None;
            accessToken := accessToken; orderBy := None;
            fields := Some "files(id,name)" |}
    with (searchParams parentFolderId accessToken).
  cbv zeta. rewrite Hlisted. run_async.
  now destruct (filter (fun file => file_name file =? fileName) files).
Qed.

Lemma findExistingFile_failed fileName parentFolderId accessToken message :
  listDriveFiles drive (searchParams parentFolderId accessToken)
  = Thrown message ->
  findExistingFile drive fileName parentFolderId accessToken
  = Some (Returned None,
          [CallListDriveFiles (searchParams parentFolderId accessToken)]).
Proof.
  intros Hfailed. unfold findExistingFile.
  change {| parentFolderId := parentFolderId; mimeType := None;
            accessToken := accessToken; orderBy := None;
            fields := Some "files(id,name)" |}
    with (searchParams parentFolderId accessToken).
  cbv zeta. now rewrite Hfailed.
Qed.

End Upload.

Lemma filter_name_first (fileName : string) (before : list DriveFile) found rest :
  Forall (fun file => file_name file <> fileName) before ->
  file_name found = fileName ->
  filter (fun file => file_name file =? fileName) (before ++ found :: rest)
  = found :: filter (fun file => file_name file =? fileName) rest.
Proof.
  intros Hbefore Hfound. induction Hbefore as [|f before Hf _ IH]; simpl.
  - apply String.eqb_eq in Hfound. now rewrite Hfound.
  - apply String.eqb_neq in Hf. now rewrite Hf.
Qed.

Lemma filter_name_none (fileName : string) (files : list DriveFile) :
  Forall (fun file => file_name file <> fileName) files ->
  filter (fun file => file_name file =? fileName) files = [].
Proof.
  intros H. induction H as [|f files Hf _ IH]; simpl; [reflexivity|].
  apply String.eqb_neq in Hf. now rewrite Hf.
Qed.

Lemma truthy_nonempty (s : string) : s <> "" -> truthy s = true.
Proof. intros H. unfold truthy. apply String.eqb_neq in H. now rewrite H. Qed.

(** ** The claims on the upload resolution *)

(** C3 (as amended). When [overwrite] is set and the listing of the search
    fails, [findExistingFile] catches the failure and returns [null]: the
    value handed to [uploadFile] is [null], and the request built from it
    creates a new file in the parent folder.  No error reaches the
    caller. *)
Theorem findExistingFile_swallows_search_failure
  (drive : DriveClient) (file : File)
  (parentFolderId accessToken message : string) :
  listDriveFiles drive (searchParams parentFolderId accessToken)
  = Thrown message ->
  (forall fileName,
      findExistingFile drive fileName parentFolderId accessToken
      = Some (Returned None,
              [CallListDriveFiles (searchParams parentFolderId accessToken)]))
  /\ resolveExistingFileId drive true file parentFolderId accessToken
     = Some (Returned None,
             [CallListDriveFiles (searchParams parentFolderId accessToken)])
  /\ method (uploadRequest file parentFolderId None accessToken) = "POST"
  /\ apiUrl (uploadRequest file parentFolderId None accessToken) = createUrl
  /\ metadata_parents (uploadRequest file parentFolderId None accessToken)
     = Some [parentFolderId].
Proof.
  intros Hfailed. split; [|split; [|repeat split]].
  - intros fileName. now apply findExistingFile_failed with (message := message).
  - unfold resolveExistingFileId.
    now apply findExistingFile_failed with (message := message).
Qed.

Lemma findExistingFile_swallows_search_failure_witness :
  resolveExistingFileId unreachableDrive true someFile "F" "token"
  = Some (Returned None, [CallListDriveFiles (searchParams "F" "token")]).
Proof.
  apply (findExistingFile_swallows_search_failure
           unreachableDrive someFile "F" "token"
           "Failed to list files: network error").
  reflexivity.
Defined.

(** C3, as stated, fails: the listing of the search fails,
    [findExistingFile] returns [null] and no error, and the upload goes on
    to create a new file and reports success. *)
Lemma processFileUpload_creates_on_failed_search :
  listDriveFiles unreachableDrive (searchParams "F" "token")
  = Thrown "Failed to list files: network error"
  /\ findExistingFile unreachableDrive "a.txt" "F" "token"
     = Some (Returned None, [CallListDriveFiles (searchParams "F" "token")])
  /\ processFileUpload unreachableDrive 0 (Some someFile) "" true
                       someCredentials "F"
     = Some (Returned {| upload_success := true; upload_error := None;
                         upload_details := None |},
             [CallRefreshAccessToken
                {| tx_clientId := "client"; tx_clientSecret := "secret";
                   tx_code := "refresh"; tx_redirectUri := "" |};
              CallListDriveFiles (searchParams "F" "token");
              CallFetchUpload (uploadRequest someFile "F" None "token")])
  /\ method (uploadRequest someFile "F" None "token") = "POST".
Proof. repeat split. Qed.

(** C6. Without [overwrite] no listing is issued and the upload creates a
    new file: the value handed to [uploadFile] is [null] and comes with no
    call, the request built from it is a [POST] on the collection with the
    parent folder as its only parent, and no call of the whole upload is a
    listing, whatever the client holds in the parent folder. *)
Theorem processFileUpload_without_overwrite_creates
  (drive : DriveClient) (fuel : nat) (file : File) (folderId : string)
  (credentials : GoogleDriveCredentials) (defaultFolderId : string) :
  (forall parentFolderId accessToken,
      resolveExistingFileId drive false file parentFolderId accessToken
      = Some (Returned None, []))
  /\ (forall parentFolderId accessToken,
         method (uploadRequest file parentFolderId None accessToken) = "POST"
         /\ apiUrl (uploadRequest file parentFolderId None accessToken)
            = createUrl
         /\ metadata_parents
              (uploadRequest file parentFolderId None accessToken)
            = Some [parentFolderId])
  /\ processFileUpload drive fuel (Some file) folderId false credentials
                       defaultFolderId
     = (accessToken <- getAccessToken drive credentials ;;
        folderValidation <- validateFolder drive fuel
                              (orElse folderId defaultFolderId)
                              defaultFolderId accessToken ;;
        if negb (valid folderValidation)
        then ret {| upload_success := false;
                    upload_error := validation_error folderValidation;
                    upload_details := validation_details folderValidation |}
        else
          _ <- uploadFile drive file (orElse folderId defaultFolderId) None
                          accessToken ;;
          ret {| upload_success := true; upload_error := None;
                 upload_details := None |})
  /\ callsAll
       (fun c =>
          isListDriveFiles c = false
          /\ (forall request,
                 c = CallFetchUpload request ->
                 exists accessToken,
                   request = uploadRequest file
                               (orElse folderId defaultFolderId) None
                               accessToken))
       (processFileUpload drive fuel (Some file) folderId false credentials
                          defaultFolderId).
Proof.
  split; [reflexivity|split; [intros; repeat split|split]].
  { unfold processFileUpload, resolveExistingFileId.
    destruct (getAccessToken drive credentials) as [[[token|e] calls]|];
      cbn [bind]; try reflexivity.
    destruct (validateFolder drive fuel (orElse folderId defaultFolderId)
                             defaultFolderId token) as [[[v|e] calls']|];
      cbn [bind]; try reflexivity.
    destruct (negb (valid v)); [reflexivity|]. now rewrite bind_ret_l. }
  eapply callsAll_weaken; [|apply processFileUpload_calls].
  intros c [(params & ->) | [(Hinfo & _) | [(_ & Habs) | Hupload]]].
  - split; [reflexivity|discriminate].
  - destruct c; try discriminate. split; [reflexivity|discriminate].
  - discriminate.
  - destruct Hupload as (existingFileId & accessToken & -> & Hnone).
    rewrite (Hnone eq_refl). split; [reflexivity|].
    intros request [= <-]. now exists accessToken.
Qed.

Lemma processFileUpload_without_overwrite_creates_witness :
  resolveExistingFileId scenarioDrive false someFile "F" "token"
  = Some (Returned None, []).
Proof.
  exact (proj1 (processFileUpload_without_overwrite_creates
                  scenarioDrive 0 someFile "F" someCredentials "R")
               "F" "token").
Defined.

(** C7. With [overwrite] set, the search keeps the entries of the listing
    whose name equals [fileName] and returns the id of the first of them in
    the order of the listing, whatever follows it; it returns [null] when no
    entry has that name.  The name searched is that of the file
    ([untitled] when it has none), and the request built from a non-empty id
    updates the file of that id, where the request built from [null]
    creates one. *)
Theorem findExistingFile_first_returned_wins
  (drive : DriveClient) (fileName parentFolderId accessToken : string)
  (files : list DriveFile) :
  listDriveFiles drive (searchParams parentFolderId accessToken)
  = Returned files ->
  (forall before found rest,
      files = (before ++ found :: rest)%list ->
      Forall (fun file => file_name file <> fileName) before ->
      file_name found = fileName ->
      findExistingFile drive fileName parentFolderId accessToken
      = Some (Returned (Some (file_id found)),
              [CallListDriveFiles (searchParams parentFolderId accessToken)]))
  /\ (Forall (fun file => file_name file <> fileName) files ->
      findExistingFile drive fileName parentFolderId accessToken
      = Some (Returned None,
              [CallListDriveFiles (searchParams parentFolderId accessToken)]))
  /\ (forall file,
         resolveExistingFileId drive true file parentFolderId accessToken
         = findExistingFile drive (orElse (name file) "untitled")
                            parentFolderId accessToken)
  /\ (forall file fileId,
         fileId <> "" ->
         method (uploadRequest file parentFolderId (Some fileId) accessToken)
         = "PATCH"
         /\ apiUrl (uploadRequest file parentFolderId (Some fileId)
                                  accessToken)
            = "https://www.googleapis.com/upload/drive/v3/files/" ++ fileId
              ++ "?uploadType=multipart&fields=id,name,webViewLink,webContentLink"
         /\ metadata_parents
              (uploadRequest file parentFolderId (Some fileId) accessToken)
            = None)
  /\ (forall file,
         method (uploadRequest file parentFolderId None accessToken) = "POST"
         /\ apiUrl (uploadRequest file parentFolderId None accessToken)
            = createUrl).
Proof.
  intros Hlisted. repeat split.
  - intros before found rest -> Hbefore Hfound.
    rewrite (findExistingFile_listed _ _ _ _ _ Hlisted).
    now rewrite filter_name_first.
  - intros Hnone. rewrite (findExistingFile_listed _ _ _ _ _ Hlisted).
    now rewrite filter_name_none.
  - unfold uploadRequest, hasExistingFileId. cbn [method].
    now rewrite truthy_nonempty.
  - unfold uploadRequest. cbn [apiUrl]. now rewrite truthy_nonempty.
  - unfold uploadRequest, hasExistingFileId. cbn [metadata_parents].
    now rewrite truthy_nonempty.
Qed.

Lemma findExistingFile_first_returned_wins_witness :
  findExistingFile duplicateNamesDrive "a.txt" "F" "token"
  = Some (Returned (Some "x"),
          [CallListDriveFiles (searchParams "F" "token")]).
Proof.
  apply (proj1 (findExistingFile_first_returned_wins
                  duplicateNamesDrive "a.txt" "F" "token" _ eq_refl)
           [plainFile "n" "notes.txt" None]
           (plainFile "x" "a.txt" None)
           [plainFile "u" "A.TXT" None; plainFile "y" "a.txt" None]).
  - reflexivity.
  - constructor; [discriminate|constructor].
  - reflexivity.
Defined.

(** C9. On an empty folder id [validateFolder] returns [{ valid: true }]
    with no client call, as it does on the default folder id; an upload
    with an empty folder id is the upload into the default folder: it makes
    no lookup at all, and every upload request it issues is built for the
    default folder.  Such an upload passes the validation: after the token
    refresh it goes straight on to the search and the upload in the default
    folder, it returns no result other than [{ success: true }], and it
    returns that one whenever the token is refreshed and the upload request
    for the default folder is answered [ok] with a JSON body. *)
Theorem validateFolder_accepts_empty_folder_id
  (drive : DriveClient) (fuel : nat) (defaultFolderId accessToken : string) :
  validateFolder drive fuel "" defaultFolderId accessToken
  = Some (Returned {| valid := true; validation_error := None;
                      validation_details := None |}, [])
  /\ validateFolder drive fuel defaultFolderId defaultFolderId accessToken
     = validateFolder drive fuel "" defaultFolderId accessToken
  /\ (forall file overwrite credentials,
         processFileUpload drive fuel file "" overwrite credentials
                           defaultFolderId
         = processFileUpload drive fuel file defaultFolderId overwrite
                             credentials defaultFolderId)
  /\ (forall file overwrite credentials,
         callsAll
           (fun c =>
              isGetDriveFileInfo c = false
              /\ (forall request,
                     c = CallFetchUpload request ->
                     exists existingFileId token,
                       request = uploadRequest file defaultFolderId
                                               existingFileId token))
           (processFileUpload drive fuel (Some file) "" overwrite credentials
                              defaultFolderId))
  /\ (forall file overwrite credentials,
         processFileUpload drive fuel (Some file) "" overwrite credentials
                           defaultFolderId
         = (token <- getAccessToken drive credentials ;;
            existingFileId <- resolveExistingFileId drive overwrite file
                                defaultFolderId token ;;
            _ <- uploadFile drive file defaultFolderId existingFileId token ;;
            ret {| upload_success := true; upload_error := None;
                   upload_details := None |}))
  /\ (forall file overwrite credentials result calls,
         processFileUpload drive fuel (Some file) "" overwrite credentials
                           defaultFolderId
         = Some (Returned result, calls) ->
         result = {| upload_success := true; upload_error := None;
                     upload_details := None |})
  /\ (forall file overwrite credentials token tokenCalls existingFileId
             searchCalls response uploaded,
         getAccessToken drive credentials
         = Some (Returned token, tokenCalls) ->
         resolveExistingFileId drive overwrite file defaultFolderId token
         = Some (Returned existingFileId, searchCalls) ->
         fetchUpload drive (uploadRequest file defaultFolderId existingFileId
                                           token)
         = Returned response ->
         ok response = true ->
         json response = Returned uploaded ->
         processFileUpload drive fuel (Some file) "" overwrite credentials
                           defaultFolderId
         = Some (Returned {| upload_success := true; upload_error := None;
                             upload_details := None |},
                 (tokenCalls ++ searchCalls
                  ++ [CallFetchUpload
                        (uploadRequest file defaultFolderId existingFileId
                                       token)])%list)).
Proof.
  assert (Hrun : forall file overwrite credentials,
             processFileUpload drive fuel (Some file) "" overwrite credentials
                               defaultFolderId
             = (token <- getAccessToken drive credentials ;;
                existingFileId <- resolveExistingFileId drive overwrite file
                                    defaultFolderId token ;;
                _ <- uploadFile drive file defaultFolderId existingFileId
                                token ;;
                ret {| upload_success := true; upload_error := None;
                       upload_details := None |})).
  { intros file overwrite credentials. unfold processFileUpload.
    change (orElse "" defaultFolderId) with defaultFolderId. cbv zeta.
    apply bind_ext. intros token.
    rewrite validateFolder_fast by now right.
    exact (bind_ret_l _ _). }
  split; [|split; [|split; [|split; [|split; [|split]]]]].
  - apply validateFolder_fast. now left.
  - rewrite !validateFolder_fast; auto.
  - intros file overwrite credentials. unfold processFileUpload.
    replace (orElse defaultFolderId defaultFolderId)
      with (orElse "" defaultFolderId); [reflexivity|].
    unfold orElse. simpl. now destruct (truthy defaultFolderId).
  - intros file overwrite credentials.
    eapply callsAll_weaken; [|apply processFileUpload_calls].
    change (orElse "" defaultFolderId) with defaultFolderId.
    intros c [(params & ->) | [(_ & _ & Habs) | [(Hlist & _) | Hupload]]].
    + split; [reflexivity|discriminate].
    + now contradiction Habs.
    + destruct c; try discriminate. split; [reflexivity|discriminate].
    + destruct Hupload as (existingFileId & token & -> & _).
      split; [reflexivity|].
      intros request [= <-]. now exists existingFileId, token.
  - exact Hrun.
  - intros file overwrite credentials result calls. rewrite Hrun.
    destruct (getAccessToken drive credentials) as [[[token|e] tcalls]|];
      cbn [bind]; try discriminate.
    destruct (resolveExistingFileId drive overwrite file defaultFolderId token)
      as [[[existing|e] rcalls]|]; cbn [bind]; try discriminate.
    destruct (uploadFile drive file defaultFolderId existing token)
      as [[[uploaded|e] ucalls]|]; cbn [bind ret]; try discriminate.
    now intros [= <- _].
  - intros file overwrite credentials token tokenCalls existingFileId
           searchCalls response uploaded Ht Hs Hf Hok Hjson.
    rewrite Hrun, Ht. cbn [bind]. rewrite Hs. cbn [bind].
    unfold uploadFile. cbv zeta. rewrite Hf. unfold await. cbn [bind].
    rewrite Hok, Hjson. cbn [ret]. now rewrite !app_nil_r.
Qed.

Lemma validateFolder_accepts_empty_folder_id_witness :
  processFileUpload scenarioDrive 0 (Some someFile) "" true someCredentials "R"
  = Some (Returned {| upload_success := true; upload_error := None;
                      upload_details := None |},
          [CallRefreshAccessToken
             {| tx_clientId := "client"; tx_clientSecret := "secret";
                tx_code := "refresh"; tx_redirectUri := "" |};
           CallListDriveFiles (searchParams "R" "token");
           CallFetchUpload (uploadRequest someFile "R" (Some "x") "token")]).
Proof.
  exact (proj2 (proj2 (proj2 (proj2 (proj2 (proj2
           (validateFolder_accepts_empty_folder_id
              scenarioDrive 0 "R" "token"))))))
           someFile true someCredentials "token" _ (Some "x") _ _ _
           eq_refl eq_refl eq_refl eq_refl eq_refl).
Defined.

(** ** The deletion of the contents of a folder *)

Lemma keptForDeletion_not_folder (file : DriveFile) :
  keptForDeletion file = negb (isFolder file).
Proof.
  unfold keptForDeletion, isFolder, truthy.
  destruct (file_mimeType file) as [m|]; [|reflexivity].
  destruct (String.eqb_spec m "") as [->|_]; [reflexivity|].
  now rewrite negb_involutive.
Qed.

(** The loop of deletions calls [deleteDriveFile] once per file, in order,
    counts the deletions that succeeded and keeps one message per failure;
    it does not throw. *)
Lemma deleteEach_counts (drive : DriveClient) (accessToken : string)
  (files : list DriveFile) (deletedCount : nat) (errors : list string) :
  exists errors',
    deleteEach drive accessToken files deletedCount errors
    = Some (Returned
              (deletedCount
               + length (filter (deleteSucceeds drive accessToken) files),
               errors'),
            map (deleteCall accessToken) files)
    /\ length errors'
       = length errors
         + length (filter (fun file =>
                             negb (deleteSucceeds drive accessToken file))
                          files).
Proof.
  revert deletedCount errors.
  induction files as [|file rest IH]; intros deletedCount errors.
  - exists errors. simpl. split; [now rewrite Nat.add_0_r|lia].
  - cbn [deleteEach map filter].
    destruct (deleteDriveFile drive (file_id file) accessToken) as [[]|e]
      eqn:Hdeleted;
      [ assert (Hs : deleteSucceeds drive accessToken file = true)
          by (unfold deleteSucceeds; now rewrite Hdeleted)
      | assert (Hs : deleteSucceeds drive accessToken file = false)
          by (unfold deleteSucceeds; now rewrite Hdeleted) ];
      rewrite Hs; run_async; cbn [fst snd negb app].
    + destruct (IH (S deletedCount) errors) as (errors' & -> & Hlen).
      exists errors'. split; [|exact Hlen].
      cbn [length]. now rewrite Nat.add_succ_r.
    + match goal with
      | |- context [deleteEach _ _ rest deletedCount ?es] =>
          destruct (IH deletedCount es) as (errors' & -> & Hlen)
      end.
      exists errors'. split; [reflexivity|].
      rewrite Hlen, length_app. cbn [length]. lia.
Qed.

(** C10. On a folder that the guard authorizes and whose listing succeeds,
    [deleteFolderContents] deletes the listed entries that are not folders,
    and only those, in the order of the listing, and it returns
    [success: true] whether the deletions succeed or fail: the failures are
    only counted in the message. *)
Theorem deleteFolderContents_keeps_folders_and_succeeds
  (drive : DriveClient) (fuel : nat) (folderId : string)
  (credentials : GoogleDriveCredentials)
  (defaultFolderId accessToken : string)
  (tokenCalls guardCalls : list Call) (listed : list DriveFile) :
  folderId <> "" ->
  getAccessToken drive credentials = Some (Returned accessToken, tokenCalls) ->
  isUnderDefaultFolder drive fuel folderId defaultFolderId accessToken
  = Some (Returned true, guardCalls) ->
  listDriveFiles drive (contentsParams folderId accessToken)
  = Returned listed ->
  let files := filter (fun file => negb (isFolder file)) listed in
  deleteFolderContents drive fuel (Some folderId) credentials defaultFolderId
  = Some (Returned
            {| success := true;
               message :=
                 deletedMessage
                   (length (filter (deleteSucceeds drive accessToken) files))
                   (length (filter
                              (fun file =>
                                 negb (deleteSucceeds drive accessToken file))
                              files));
               delete_error := None;
               delete_details := None |},
          (tokenCalls ++ guardCalls
           ++ CallListDriveFiles (contentsParams folderId accessToken)
           :: map (deleteCall accessToken) files)%list).
Proof.
  intros Hne Htoken Hguard Hlisted files.
  unfold deleteFolderContents.
  rewrite (truthy_nonempty _ Hne). cbn [negb].
  rewrite Htoken. cbn [bind]. rewrite Hguard. cbn [bind negb].
  change {| parentFolderId := folderId; mimeType := None;
            accessToken := accessToken; orderBy := None;
            fields := Some "files(id,name,mimeType)" |}
    with (contentsParams folderId accessToken).
  cbv zeta. rewrite Hlisted.
  destruct (deleteEach_counts drive accessToken files 0 [])
    as (errors' & Heach & Hlen).
  run_async.
  replace (filter keptForDeletion listed) with files
    by (apply filter_ext; intros; now rewrite keptForDeletion_not_folder).
  rewrite Heach. cbn [fst snd Nat.add length] in *.
  rewrite Hlen. unfold deletedMessage.
  now rewrite app_nil_r.
Qed.

Lemma deleteFolderContents_keeps_folders_and_succeeds_witness :
  deleteFolderContents contentsDrive 2 (Some "F") someCredentials "R"
  = Some (Returned {| success := true;
                      message := "Deleted 1 files from folder. Errors: 1";
                      delete_error := None;
                      delete_details := None |},
          [CallRefreshAccessToken
             {| tx_clientId := "client"; tx_clientSecret := "secret";
                tx_code := "refresh"; tx_redirectUri := "" |};
           CallGetDriveFileInfo "F" "token" "parents";
           CallListDriveFiles (contentsParams "F" "token");
           CallDeleteDriveFile "f1" "token";
           CallDeleteDriveFile "f2" "token"]).
Proof.
  apply (deleteFolderContents_keeps_folders_and_succeeds
           contentsDrive 2 "F" someCredentials "R" "token"
           [CallRefreshAccessToken
              {| tx_clientId := "client"; tx_clientSecret := "secret";
                 tx_code := "refresh"; tx_redirectUri := "" |}]
           [CallGetDriveFileInfo "F" "token" "parents"]
           [plainFile "f1" "a.txt" (Some "text/plain");
            plainFile "d1" "sub" (Some folderMimeType);
            plainFile "f2" "b.txt" None]).
  - discriminate.
  - reflexivity.
  - reflexivity.
  - reflexivity.
Defined.

(** ** Further properties of [googleDrive.ts] *)

Lemma truthy_true_nonempty (s : string) : truthy s = true -> s <> "".
Proof.
  unfold truthy. intros H ->. discriminate.
Qed.

Lemma truthy_false_empty (s : string) : truthy s = false -> s = "".
Proof.
  unfold truthy. intros H. apply String.eqb_eq.
  now destruct (s =? "").
Qed.

(** The parameters [getAccessToken] hands to [refreshAccessToken]. *)
Lemma getAccessToken_unfold (drive : DriveClient)
  (credentials : GoogleDriveCredentials) :
  getAccessToken drive credentials
  = let params := {| tx_clientId := clientId credentials;
                     tx_clientSecret := clientSecret credentials;
                     tx_code := refreshToken credentials;
                     tx_redirectUri := "" |} in
    Some (match refreshAccessToken drive params with
          | Returned response =>
              if truthy (access_token response)
              then Returned (access_token response)
              else Thrown ("Failed to refresh access token: "
                           ++ "No access token in response")
          | Thrown reason =>
              Thrown ("Failed to refresh access token: " ++ reason)
          end,
          [CallRefreshAccessToken params]).
Proof.
  unfold getAccessToken. cbv zeta.
  destruct (refreshAccessToken drive _) as [response|reason]; run_async;
    [|reflexivity].
  now destruct (truthy (access_token response)).
Qed.

Lemma getAccessToken_one_call (drive : DriveClient)
  (credentials : GoogleDriveCredentials) :
  exists r,
    getAccessToken drive credentials
    = Some (r, [CallRefreshAccessToken
                  {| tx_clientId := clientId credentials;
                     tx_clientSecret := clientSecret credentials;
                     tx_code := refreshToken credentials;
                     tx_redirectUri := "" |}])
    /\ match r with
       | Returned token => token <> ""
       | Thrown message =>
           exists reason,
             message = "Failed to refresh access token: " ++ reason
       end.
Proof.
  rewrite getAccessToken_unfold. cbv zeta.
  destruct (refreshAccessToken drive _) as [response|reason].
  - destruct (truthy (access_token response)) eqn:Ht.
    + eexists. split; [reflexivity|]. now apply truthy_true_nonempty.
    + eexists. split; [reflexivity|]. now eexists.
  - eexists. split; [reflexivity|]. now eexists.
Qed.

(** [getAccessToken] always settles after exactly one call, the refresh
    with the refresh token of the credentials as [code].  A token it returns
    is the non-empty [access_token] of the response; every failure, a
    response without a token included, is thrown under the prefix
    [Failed to refresh access token: ]. *)
Theorem getAccessToken_token_or_prefixed_failure
  (drive : DriveClient) (credentials : GoogleDriveCredentials) :
  let params := {| tx_clientId := clientId credentials;
                   tx_clientSecret := clientSecret credentials;
                   tx_code := refreshToken credentials;
                   tx_redirectUri := "" |} in
  exists r,
    getAccessToken drive credentials
    = Some (r, [CallRefreshAccessToken params])
    /\ match r with
       | Returned token =>
           token <> ""
           /\ exists response,
               refreshAccessToken drive params = Returned response
               /\ access_token response = token
       | Thrown message =>
           exists reason,
             message = "Failed to refresh access token: " ++ reason
             /\ (refreshAccessToken drive params = Thrown reason
                 \/ (reason = "No access token in response"
                     /\ exists response,
                         refreshAccessToken drive params = Returned response
                         /\ access_token response = ""))
       end.
Proof.
  intros params. rewrite getAccessToken_unfold. cbv zeta. fold params.
  destruct (refreshAccessToken drive params) as [response|reason] eqn:E.
  - destruct (truthy (access_token response)) eqn:Ht.
    + eexists. split; [reflexivity|]. split.
      * now apply truthy_true_nonempty.
      * now exists response.
    + eexists. split; [reflexivity|].
      exists "No access token in response". split; [reflexivity|].
      right. split; [reflexivity|]. exists response.
      split; [reflexivity|]. now apply truthy_false_empty.
  - eexists. split; [reflexivity|]. exists reason. split; [reflexivity|].
    now left.
Qed.

Lemma getAccessToken_thrown_prefix (drive : DriveClient)
  (credentials : GoogleDriveCredentials) message calls :
  getAccessToken drive credentials = Some (Thrown message, calls) ->
  exists reason, message = "Failed to refresh access token: " ++ reason.
Proof.
  intros H.
  destruct (getAccessToken_one_call drive credentials) as (r & E & Hr).
  rewrite E in H. injection H as -> _.
  destruct Hr as (reason & ->). now exists reason.
Qed.

Lemma getAccessToken_settles (drive : DriveClient)
  (credentials : GoogleDriveCredentials) :
  exists r calls, getAccessToken drive credentials = Some (r, calls).
Proof.
  destruct (getAccessToken_one_call drive credentials) as (r & E & _).
  eauto.
Qed.

(** The metadata lookup of [validateFolder], as a call. *)
Lemma validateFolder_slow (drive : DriveClient) (fuel : nat)
  (folderId defaultFolderId accessToken : string) :
  folderId <> "" -> folderId <> defaultFolderId ->
  validateFolder drive fuel folderId defaultFolderId accessToken
  = match getDriveFileInfo drive folderId accessToken
                           "id,name,mimeType,parents" with
    | Thrown _ =>
        Some (Returned {| valid := false;
                          validation_error := Some "Invalid folder ID";
                          validation_details :=
                            Some ("Folder " ++ folderId ++ " not found") |},
              [CallGetDriveFileInfo folderId accessToken
                                    "id,name,mimeType,parents"])
    | Returned _ =>
        match isUnderDefaultFolder drive fuel folderId defaultFolderId
                                   accessToken with
        | None => None
        | Some (Returned true, calls) =>
            Some (Returned {| valid := true; validation_error := None;
                              validation_details := None |},
                  CallGetDriveFileInfo folderId accessToken
                                       "id,name,mimeType,parents" :: calls)
        | Some (Returned false, calls) =>
            Some (Returned {| valid := false;
                              validation_error :=
                                Some "Unauthorized folder access";
                              validation_details :=
                                Some ("Folder " ++ folderId
                                      ++ " is not under the allowed default folder") |},
                  CallGetDriveFileInfo folderId accessToken
                                       "id,name,mimeType,parents" :: calls)
        | Some (Thrown _, calls) =>
            Some (Returned {| valid := false;
                              validation_error := Some "Invalid folder ID";
                              validation_details :=
                                Some ("Folder " ++ folderId ++ " not found") |},
                  CallGetDriveFileInfo folderId accessToken
                                       "id,name,mimeType,parents" :: calls)
        end
    end.
Proof.
  intros Hne Hnd. unfold validateFolder.
  rewrite (truthy_nonempty _ Hne). apply String.eqb_neq in Hnd. rewrite Hnd.
  cbn [negb orb].
  destruct (getDriveFileInfo drive folderId accessToken
                             "id,name,mimeType,parents") as [info|e];
    run_async; [|reflexivity].
  destruct (isUnderDefaultFolder drive fuel folderId defaultFolderId
                                 accessToken) as [[[[]|e] calls]|];
    cbn [negb]; try reflexivity; now rewrite app_nil_r.
Qed.

Lemma validateFolder_verdicts (drive : DriveClient) (fuel : nat)
  (folderId defaultFolderId accessToken : string) :
  neverThrows (validateFolder drive fuel folderId defaultFolderId accessToken)
  /\ (forall validation calls,
         validateFolder drive fuel folderId defaultFolderId accessToken
         = Some (Returned validation, calls) ->
         valid validation = true ->
         folderId = ""
         \/ reaches drive defaultFolderId accessToken folderId).
Proof.
  destruct (String.eqb_spec folderId "") as [->|Hne].
  { rewrite validateFolder_fast by now left. split.
    - right. now eexists _, _.
    - intros. now left. }
  destruct (String.eqb_spec folderId defaultFolderId) as [->|Hnd].
  { rewrite validateFolder_fast by now right. split.
    - right. now eexists _, _.
    - intros. right. constructor. }
  rewrite validateFolder_slow by assumption.
  destruct (getDriveFileInfo drive folderId accessToken
                             "id,name,mimeType,parents") as [info|e].
  - destruct (isUnderDefaultFolder drive fuel folderId defaultFolderId
                                   accessToken) as [[[[]|e] gcalls]|] eqn:E.
    + split; [right; now eexists _, _|].
      intros _ _ _ _. right. exact (walk_true_reaches _ _ _ _ _ _ E).
    + split; [right; now eexists _, _|].
      intros validation calls [= <- _]. discriminate.
    + split; [right; now eexists _, _|].
      intros validation calls [= <- _]. discriminate.
    + split; [now left|discriminate].
  - split; [right; now eexists _, _|].
    intros validation calls [= <- _]. discriminate.
Qed.

(** [validateFolder] never throws, and it accepts a folder only when the
    folder id is empty or the parent chain of the folder reaches the default
    folder (the default folder itself included). *)
Theorem validateFolder_accepts_only_in_scope
  (drive : DriveClient) (fuel : nat)
  (folderId defaultFolderId accessToken : string) :
  neverThrows (validateFolder drive fuel folderId defaultFolderId accessToken)
  /\ (forall validation calls,
         validateFolder drive fuel folderId defaultFolderId accessToken
         = Some (Returned validation, calls) ->
         valid validation = true ->
         folderId = ""
         \/ reaches drive defaultFolderId accessToken folderId).
Proof.
  split.
  - apply validateFolder_verdicts.
  - intros validation calls Hrun Hvalid.
    exact (proj2 (validateFolder_verdicts drive fuel folderId defaultFolderId
                                          accessToken)
                 validation calls Hrun Hvalid).
Qed.

Lemma validateFolder_accepts_only_in_scope_witness :
  "C" = "" \/ reaches scenarioDrive "R" "token" "C".
Proof.
  apply (proj2 (validateFolder_accepts_only_in_scope
                  scenarioDrive 2 "C" "R" "token")
           {| valid := true; validation_error := None;
              validation_details := None |}
           [CallGetDriveFileInfo "C" "token" "id,name,mimeType,parents";
            lookup "token" "C"]);
    reflexivity.
Defined.

(** A folder other than the empty and the default one is rejected as
    [Invalid folder ID] when its metadata lookup fails, after that one call
    and with no walk of the guard, and as [Unauthorized folder access] when
    the lookup succeeds and the guard returns [false]. *)
Theorem validateFolder_rejections
  (drive : DriveClient) (fuel : nat)
  (folderId defaultFolderId accessToken : string) :
  folderId <> "" -> folderId <> defaultFolderId ->
  (forall reason,
      getDriveFileInfo drive folderId accessToken "id,name,mimeType,parents"
      = Thrown reason ->
      validateFolder drive fuel folderId defaultFolderId accessToken
      = Some (Returned {| valid := false;
                          validation_error := Some "Invalid folder ID";
                          validation_details :=
                            Some ("Folder " ++ folderId ++ " not found") |},
              [CallGetDriveFileInfo folderId accessToken
                                    "id,name,mimeType,parents"]))
  /\ (forall info calls,
         getDriveFileInfo drive folderId accessToken
                          "id,name,mimeType,parents" = Returned info ->
         isUnderDefaultFolder drive fuel folderId defaultFolderId accessToken
         = Some (Returned false, calls) ->
         validateFolder drive fuel folderId defaultFolderId accessToken
         = Some (Returned {| valid := false;
                             validation_error :=
                               Some "Unauthorized folder access";
                             validation_details :=
                               Some ("Folder " ++ folderId
                                     ++ " is not under the allowed default folder") |},
                 CallGetDriveFileInfo folderId accessToken
                                      "id,name,mimeType,parents" :: calls)).
Proof.
  intros Hne Hnd. split.
  - intros reason Hinfo. rewrite validateFolder_slow by assumption.
    now rewrite Hinfo.
  - intros info calls Hinfo Hguard. rewrite validateFolder_slow by assumption.
    now rewrite Hinfo, Hguard.
Qed.

Lemma validateFolder_rejections_witness :
  validateFolder scenarioDrive 2 "G" "R" "token"
  = Some (Returned {| valid := false;
                      validation_error := Some "Unauthorized folder access";
                      validation_details :=
                        Some "Folder G is not under the allowed default folder" |},
          [CallGetDriveFileInfo "G" "token" "id,name,mimeType,parents";
           lookup "token" "G"; lookup "token" "P"]).
Proof.
  apply (proj2 (validateFolder_rejections scenarioDrive 2 "G" "R" "token"
                  ltac:(discriminate) ltac:(discriminate))
           (folderInfo "G" (Some ["P"]))
           [lookup "token" "G"; lookup "token" "P"]);
    reflexivity.
Defined.

Lemma orElse_nonempty (a b : string) : b <> "" -> orElse a b <> "".
Proof.
  intros Hb. unfold orElse. destruct (truthy a) eqn:E; [|exact Hb].
  now apply truthy_true_nonempty.
Qed.

Lemma uploadFile_outcome (drive : DriveClient) (file : File)
  (parentFolderId : string) (existingFileId : option string)
  (accessToken : string) :
  uploadFile drive file parentFolderId existingFileId accessToken
  = Some (match fetchUpload drive
                  (uploadRequest file parentFolderId existingFileId
                                 accessToken) with
          | Returned response =>
              if ok response then json response
              else Thrown ("Failed to upload to Google Drive: "
                           ++ text response)
          | Thrown reason => Thrown reason
          end,
          [CallFetchUpload
             (uploadRequest file parentFolderId existingFileId accessToken)]).
Proof.
  unfold uploadFile. cbv zeta.
  destruct (fetchUpload drive _) as [response|reason]; run_async;
    [|reflexivity].
  destruct (ok response); [|reflexivity].
  now destruct (json response).
Qed.

(** The request of [uploadFile] never has an empty name or media type; an
    update is a [PATCH] that leaves the parents of the file alone, a
    creation is a [POST] into the parent folder.  [uploadFile] makes that
    one call: an [ok] response gives what its [json()] gives, the parsed
    result or the error [json()] throws on a body that is no JSON; a
    response that is not [ok] is thrown with its text; a failure of [fetch]
    goes through as it is. *)
Theorem uploadFile_request_and_outcome
  (drive : DriveClient) (file : File) (parentFolderId : string)
  (existingFileId : option string) (accessToken : string) :
  let request :=
    uploadRequest file parentFolderId existingFileId accessToken in
  metadata_name request <> ""
  /\ dataContentType request <> ""
  /\ ((method request = "PATCH" /\ metadata_parents request = None
       /\ exists fileId, existingFileId = Some fileId /\ fileId <> "")
      \/ (method request = "POST"
          /\ metadata_parents request = Some [parentFolderId]
          /\ apiUrl request = createUrl))
  /\ uploadFile drive file parentFolderId existingFileId accessToken
     = Some (match fetchUpload drive request with
             | Returned response =>
                 if ok response then json response
                 else Thrown ("Failed to upload to Google Drive: "
                              ++ text response)
             | Thrown reason => Thrown reason
             end,
             [CallFetchUpload request]).
Proof.
  intros request. split; [|split; [|split]].
  - apply orElse_nonempty. discriminate.
  - apply orElse_nonempty. discriminate.
  - subst request. unfold uploadRequest, hasExistingFileId.
    cbn [method metadata_parents apiUrl].
    destruct existingFileId as [fileId|]; [|right; now repeat split].
    destruct (truthy fileId) eqn:E.
    + left. repeat split. exists fileId. split; [reflexivity|].
      now apply truthy_true_nonempty.
    + right. now repeat split.
  - apply uploadFile_outcome.
Qed.

Lemma resolveExistingFileId_settles (drive : DriveClient) (overwrite : bool)
  (file : File) (parentFolderId accessToken : string) :
  exists existingFileId calls,
    resolveExistingFileId drive overwrite file parentFolderId accessToken
    = Some (Returned existingFileId, calls)
    /\ Forall (fun c => isListDriveFiles c = true /\ overwrite = true) calls.
Proof.
  unfold resolveExistingFileId. destruct overwrite.
  - destruct (listDriveFiles drive (searchParams parentFolderId accessToken))
      as [files|reason] eqn:E.
    + rewrite (findExistingFile_listed _ _ _ _ _ E).
      eexists _, _. split; [reflexivity|]. now repeat constructor.
    + rewrite (findExistingFile_failed _ _ _ _ _ E).
      eexists _, _. split; [reflexivity|]. now repeat constructor.
  - exists None, []. split; [reflexivity|constructor].
Qed.

Lemma resolveExistingFileId_calls (drive : DriveClient) (overwrite : bool)
  (file : File) (parentFolderId accessToken : string) r calls c :
  resolveExistingFileId drive overwrite file parentFolderId accessToken
  = Some (r, calls) ->
  In c calls ->
  c = CallListDriveFiles (searchParams parentFolderId accessToken)
  /\ overwrite = true.
Proof.
  unfold resolveExistingFileId. destruct overwrite.
  - intros H Hin.
    pose proof (findExistingFile_calls drive
                  (orElse (name file) "untitled") parentFolderId accessToken)
      as Hall.
    cbv zeta in H. rewrite H in Hall. simpl in Hall.
    split; [|reflexivity].
    exact (proj1 (Forall_forall _ _) Hall c Hin).
  - intros [= _ <-] [].
Qed.

(** The shape of every run of [processFileUpload] on a file. *)
Lemma processFileUpload_cases (drive : DriveClient) (fuel : nat) (file : File)
  (folderId : string) (overwrite : bool)
  (credentials : GoogleDriveCredentials) (defaultFolderId : string) :
  let parent := orElse folderId defaultFolderId in
  let run := processFileUpload drive fuel (Some file) folderId overwrite
                               credentials defaultFolderId in
  (run = None)
  \/ (exists message tcalls,
         getAccessToken drive credentials = Some (Thrown message, tcalls)
         /\ run = Some (Thrown message, tcalls))
  \/ (exists token tcalls validation vcalls,
         getAccessToken drive credentials = Some (Returned token, tcalls)
         /\ validateFolder drive fuel parent defaultFolderId token
            = Some (Returned validation, vcalls)
         /\ valid validation = false
         /\ run = Some (Returned
                          {| upload_success := false;
                             upload_error := validation_error validation;
                             upload_details := validation_details validation |},
                        (tcalls ++ vcalls)%list))
  \/ (exists token tcalls validation vcalls existingFileId rcalls,
         getAccessToken drive credentials = Some (Returned token, tcalls)
         /\ validateFolder drive fuel parent defaultFolderId token
            = Some (Returned validation, vcalls)
         /\ valid validation = true
         /\ resolveExistingFileId drive overwrite file parent token
            = Some (Returned existingFileId, rcalls)
         /\ run = Some (match fetchUpload drive
                                (uploadRequest file parent existingFileId
                                               token) with
                        | Returned response =>
                            if ok response
                            then
                              match json response with
                              | Returned _ =>
                                  Returned {| upload_success := true;
                                              upload_error := None;
                                              upload_details := None |}
                              | Thrown reason => Thrown reason
                              end
                            else Thrown ("Failed to upload to Google Drive: "
                                         ++ text response)
                        | Thrown reason => Thrown reason
                        end,
                        (tcalls ++ vcalls ++ rcalls
                         ++ [CallFetchUpload
                               (uploadRequest file parent existingFileId
                                              token)])%list)).
Proof.
  intros parent run. subst run. unfold processFileUpload. fold parent.
  destruct (getAccessToken drive credentials) as [[[token|message] tcalls]|]
    eqn:Et; cbn [bind].
  2: { right. left. now exists message, tcalls. }
  2: { now left. }
  destruct (validateFolder_verdicts drive fuel parent
              defaultFolderId token) as [[Ev | (validation & vcalls & Ev)] _];
    rewrite Ev; cbn [bind].
  { now left. }
  destruct (valid validation) eqn:Hvalid; cbn [negb].
  - right. right. right.
    destruct (resolveExistingFileId_settles drive overwrite file parent token)
      as (existingFileId & rcalls & Er & _).
    exists token, tcalls, validation, vcalls, existingFileId, rcalls.
    repeat (split; [reflexivity || assumption|]).
    rewrite Er. cbn [bind].
    rewrite uploadFile_outcome.
    destruct (fetchUpload drive _) as [response|reason]; cbn [bind].
    + destruct (ok response); [destruct (json response)|]; cbn [ret];
        now rewrite ?app_nil_r, ?app_assoc.
    + now rewrite ?app_assoc.
  - right. right. left.
    exists token, tcalls, validation, vcalls.
    repeat (split; [reflexivity || assumption|]).
    cbn [ret]. now rewrite app_nil_r.
Qed.

Lemma getAccessToken_only_refresh (drive : DriveClient)
  (credentials : GoogleDriveCredentials) r calls c :
  getAccessToken drive credentials = Some (r, calls) -> In c calls ->
  exists params, c = CallRefreshAccessToken params.
Proof.
  intros H Hin. pose proof (getAccessToken_calls drive credentials) as Hall.
  rewrite H in Hall. simpl in Hall.
  exact (proj1 (Forall_forall _ _) Hall c Hin).
Qed.

Lemma validateFolder_only_lookups (drive : DriveClient) fuel folderId
  defaultFolderId accessToken r calls c :
  validateFolder drive fuel folderId defaultFolderId accessToken
  = Some (r, calls) ->
  In c calls -> isGetDriveFileInfo c = true.
Proof.
  intros H Hin.
  pose proof (validateFolder_calls drive fuel folderId defaultFolderId
                                   accessToken) as Hall.
  rewrite H in Hall. simpl in Hall.
  exact (proj1 (Forall_forall _ _) Hall c Hin).
Qed.

(** The listings and uploads of [processFileUpload] stay in a parent folder
    that the validation accepted.  Every listing call of a run is the
    search in the parent folder (the folder of the request, or the default
    folder when the request names none), and every upload call is the
    request built for that parent folder and for what the search in it
    returned, both under the token that [getAccessToken] returned; and
    under that token the parent folder is empty (no folder id and no
    default folder) or its parent chain reaches the default folder.  A
    rejected folder is never searched and never written to. *)
Theorem processFileUpload_writes_only_in_scope
  (drive : DriveClient) (fuel : nat) (file : File) (folderId : string)
  (overwrite : bool) (credentials : GoogleDriveCredentials)
  (defaultFolderId : string) (r : Outcome UploadOutcome) (calls : list Call)
  (c : Call) :
  processFileUpload drive fuel (Some file) folderId overwrite credentials
                    defaultFolderId = Some (r, calls) ->
  In c calls ->
  isListDriveFiles c = true \/ (exists request, c = CallFetchUpload request) ->
  exists accessToken tokenCalls,
    getAccessToken drive credentials = Some (Returned accessToken, tokenCalls)
    /\ (orElse folderId defaultFolderId = ""
        \/ reaches drive defaultFolderId accessToken
                   (orElse folderId defaultFolderId))
    /\ ((overwrite = true
         /\ c = CallListDriveFiles
                  (searchParams (orElse folderId defaultFolderId) accessToken))
        \/ exists existingFileId searchCalls,
            resolveExistingFileId drive overwrite file
              (orElse folderId defaultFolderId) accessToken
            = Some (Returned existingFileId, searchCalls)
            /\ c = CallFetchUpload
                     (uploadRequest file (orElse folderId defaultFolderId)
                                    existingFileId accessToken)).
Proof.
  intros Hrun Hin Hkind.
  assert (Hnot : forall c', isGetDriveFileInfo c' = true
                            \/ (exists params, c' = CallRefreshAccessToken params) ->
                            ~ (isListDriveFiles c' = true
                               \/ exists request, c' = CallFetchUpload request)).
  { intros c' [H | (params & H)] [H' | (request & H')];
      subst; try discriminate; destruct c'; discriminate. }
  destruct (processFileUpload_cases drive fuel file folderId overwrite
              credentials defaultFolderId)
    as [E | [(message & tcalls & Et & E)
            | [(token & tcalls & validation & vcalls & Et & Ev & Hv & E)
              | (token & tcalls & validation & vcalls & existing & rcalls
                 & Et & Ev & Hv & Er & E)]]];
    cbv zeta in *.
  - rewrite E in Hrun. discriminate.
  - rewrite E in Hrun. injection Hrun as _ <-.
    exfalso. apply (Hnot c); [right|exact Hkind].
    exact (getAccessToken_only_refresh _ _ _ _ _ Et Hin).
  - rewrite E in Hrun. injection Hrun as _ <-.
    exfalso. apply in_app_or in Hin. apply (Hnot c); [|exact Hkind].
    destruct Hin as [Hin | Hin].
    + right. exact (getAccessToken_only_refresh _ _ _ _ _ Et Hin).
    + left. exact (validateFolder_only_lookups _ _ _ _ _ _ _ _ Ev Hin).
  - rewrite E in Hrun. injection Hrun as _ <-.
    exists token, tcalls. split; [exact Et|]. split.
    { exact (proj2 (validateFolder_verdicts drive fuel _ _ _) _ _ Ev Hv). }
    apply in_app_or in Hin. destruct Hin as [Hin | Hin].
    { exfalso. apply (Hnot c); [right|exact Hkind].
      exact (getAccessToken_only_refresh _ _ _ _ _ Et Hin). }
    apply in_app_or in Hin. destruct Hin as [Hin | Hin].
    { exfalso. apply (Hnot c); [left|exact Hkind].
      exact (validateFolder_only_lookups _ _ _ _ _ _ _ _ Ev Hin). }
    apply in_app_or in Hin. destruct Hin as [Hin | [<- | []]].
    + left. destruct (resolveExistingFileId_calls _ _ _ _ _ _ _ _ Er Hin)
        as (-> & ->).
      now split.
    + right. now exists existing, rcalls.
Qed.

Lemma processFileUpload_writes_only_in_scope_witness :
  exists accessToken tokenCalls,
    getAccessToken scenarioDrive someCredentials
    = Some (Returned accessToken, tokenCalls)
    /\ (orElse "C" "R" = ""
        \/ reaches scenarioDrive "R" accessToken (orElse "C" "R"))
    /\ ((true = true
         /\ CallFetchUpload (uploadRequest someFile "C" (Some "x") "token")
            = CallListDriveFiles (searchParams (orElse "C" "R") accessToken))
        \/ exists existingFileId searchCalls,
            resolveExistingFileId scenarioDrive true someFile
                                  (orElse "C" "R") accessToken
            = Some (Returned existingFileId, searchCalls)
            /\ CallFetchUpload (uploadRequest someFile "C" (Some "x") "token")
               = CallFetchUpload
                   (uploadRequest someFile (orElse "C" "R") existingFileId
                                  accessToken)).
Proof.
  apply (processFileUpload_writes_only_in_scope
           scenarioDrive 2 someFile "C" true someCredentials "R"
           (Returned {| upload_success := true; upload_error := None;
                        upload_details := None |})
           [CallRefreshAccessToken
              {| tx_clientId := "client"; tx_clientSecret := "secret";
                 tx_code := "refresh"; tx_redirectUri := "" |};
            CallGetDriveFileInfo "C" "token" "id,name,mimeType,parents";
            lookup "token" "C";
            CallListDriveFiles (searchParams "C" "token");
            CallFetchUpload (uploadRequest someFile "C" (Some "x") "token")]
           (CallFetchUpload (uploadRequest someFile "C" (Some "x") "token"))).
  - reflexivity.
  - simpl. auto 6.
  - right. now eexists.
Defined.

(** [processFileUpload] reports success only after an upload call, its last
    call, was answered [ok] with a body that [json()] parsed; without a
    file it reports [No file provided] with no call at all; a folder the
    validation rejects gives the error of the validation and no upload; and
    a failure of the token refresh or of the upload is thrown, never
    reported as a result: the prefixed failure of the refresh, what [fetch]
    threw, the text of an answer that is not [ok], or what [json()] threw
    on an [ok] answer. *)
Theorem processFileUpload_success_means_uploaded
  (drive : DriveClient) (fuel : nat) (folderId : string) (overwrite : bool)
  (credentials : GoogleDriveCredentials) (defaultFolderId : string) :
  processFileUpload drive fuel None folderId overwrite credentials
                    defaultFolderId
  = Some (Returned {| upload_success := false;
                      upload_error := Some "No file provided";
                      upload_details := None |}, [])
  /\ (forall file result calls,
         processFileUpload drive fuel (Some file) folderId overwrite
                           credentials defaultFolderId
         = Some (Returned result, calls) ->
         (upload_success result = true
          /\ exists before request response uploaded,
              calls = (before ++ [CallFetchUpload request])%list
              /\ Forall (fun c => forall r, c <> CallFetchUpload r) before
              /\ fetchUpload drive request = Returned response
              /\ ok response = true
              /\ json response = Returned uploaded)
         \/ (upload_success result = false
             /\ Forall (fun c => isGetDriveFileInfo c = true
                                 \/ exists params,
                                     c = CallRefreshAccessToken params)
                       calls
             /\ (upload_error result = Some "Invalid folder ID"
                 \/ upload_error result = Some "Unauthorized folder access")))
  /\ (forall file message calls,
         processFileUpload drive fuel (Some file) folderId overwrite
                           credentials defaultFolderId
         = Some (Thrown message, calls) ->
         (exists reason,
             message = "Failed to refresh access token: " ++ reason)
         \/ (exists request,
                In (CallFetchUpload request) calls
                /\ (fetchUpload drive request = Thrown message
                    \/ exists response,
                        fetchUpload drive request = Returned response
                        /\ ((ok response = false
                             /\ message = "Failed to upload to Google Drive: "
                                          ++ text response)
                            \/ (ok response = true
                                /\ json response = Thrown message))))).
Proof.
  split; [reflexivity|split].
  - intros file result calls Hrun.
    destruct (processFileUpload_cases drive fuel file folderId overwrite
                credentials defaultFolderId)
      as [E | [(message & tcalls & Et & E)
              | [(token & tcalls & validation & vcalls & Et & Ev & Hv & E)
                | (token & tcalls & validation & vcalls & existing & rcalls
                   & Et & Ev & Hv & Er & E)]]];
      cbv zeta in *; rewrite E in Hrun; try discriminate.
    + injection Hrun as <- <-. right. split; [reflexivity|]. split.
      * apply Forall_app. split; apply Forall_forall; intros c Hin.
        -- right. exact (getAccessToken_only_refresh _ _ _ _ _ Et Hin).
        -- left. exact (validateFolder_only_lookups _ _ _ _ _ _ _ _ Ev Hin).
      * cbn [upload_error].
        set (parent := orElse folderId defaultFolderId) in *.
        destruct (String.eqb_spec parent "") as [Hp|Hp].
        { rewrite validateFolder_fast in Ev by now left.
          injection Ev as <- _. discriminate. }
        destruct (String.eqb_spec parent defaultFolderId) as [Hd|Hd].
        { rewrite validateFolder_fast in Ev by now right.
          injection Ev as <- _. discriminate. }
        rewrite validateFolder_slow in Ev by assumption.
        destruct (getDriveFileInfo drive parent token _) as [info|e].
        -- destruct (isUnderDefaultFolder drive fuel parent defaultFolderId
                                           token) as [[[[]|e] gcalls]|];
             try discriminate; injection Ev as <- _; auto; discriminate.
        -- injection Ev as <- _. auto.
    + destruct (fetchUpload drive _) as [response|reason] eqn:Ef;
        [|discriminate].
      destruct (ok response) eqn:Hok; [|discriminate].
      destruct (json response) as [uploaded|reason] eqn:Hjson;
        [|discriminate].
      injection Hrun as <- <-. left. split; [reflexivity|].
      exists (tcalls ++ vcalls ++ rcalls)%list,
             (uploadRequest file (orElse folderId defaultFolderId) existing
                            token),
             response, uploaded.
      split; [now rewrite <- !app_assoc|]. split; [|auto].
      apply Forall_app. split; [|apply Forall_app; split];
        apply Forall_forall; intros c Hin r ->.
      * destruct (getAccessToken_only_refresh _ _ _ _ _ Et Hin) as (p & Hp).
        discriminate.
      * pose proof (validateFolder_only_lookups _ _ _ _ _ _ _ _ Ev Hin).
        discriminate.
      * destruct (resolveExistingFileId_calls _ _ _ _ _ _ _ _ Er Hin)
          as (Hc & _).
        discriminate.
  - intros file message calls Hrun.
    destruct (processFileUpload_cases drive fuel file folderId overwrite
                credentials defaultFolderId)
      as [E | [(message' & tcalls & Et & E)
              | [(token & tcalls & validation & vcalls & Et & Ev & Hv & E)
                | (token & tcalls & validation & vcalls & existing & rcalls
                   & Et & Ev & Hv & Er & E)]]];
      cbv zeta in *; rewrite E in Hrun; try discriminate.
    + injection Hrun as <- <-. left.
      exact (getAccessToken_thrown_prefix _ _ _ _ Et).
    + right. eexists. split.
      * injection Hrun as _ <-. rewrite !in_app_iff. right. right. right.
        now left.
      * destruct (fetchUpload drive _) as [response|reason] eqn:Ef.
        -- right. exists response. split; [reflexivity|].
           destruct (ok response) eqn:Hok.
           ++ destruct (json response) as [uploaded|reason] eqn:Hjson;
                [discriminate|].
              injection Hrun as <- _. right. now split.
           ++ injection Hrun as <- _. left. now split.
        -- injection Hrun as <- _. now left.
Qed.

Lemma processFileUpload_success_means_uploaded_witness :
  (upload_success {| upload_success := true; upload_error := None;
                     upload_details := None |} = true
   /\ exists before request response uploaded,
       [CallRefreshAccessToken
          {| tx_clientId := "client"; tx_clientSecret := "secret";
             tx_code := "refresh"; tx_redirectUri := "" |};
        CallFetchUpload (uploadRequest someFile "R" None "token")]
       = (before ++ [CallFetchUpload request])%list
       /\ Forall (fun c => forall r, c <> CallFetchUpload r) before
       /\ fetchUpload scenarioDrive request = Returned response
       /\ ok response = true
       /\ json response = Returned uploaded)
  \/ (upload_success {| upload_success := true; upload_error := None;
                        upload_details := None |} = false
      /\ Forall (fun c => isGetDriveFileInfo c = true
                          \/ exists params, c = CallRefreshAccessToken params)
                [CallRefreshAccessToken
                   {| tx_clientId := "client"; tx_clientSecret := "secret";
                      tx_code := "refresh"; tx_redirectUri := "" |};
                 CallFetchUpload (uploadRequest someFile "R" None "token")]
      /\ (upload_error {| upload_success := true; upload_error := None;
                          upload_details := None |}
          = Some "Invalid folder ID"
          \/ upload_error {| upload_success := true; upload_error := None;
                             upload_details := None |}
             = Some "Unauthorized folder access")).
Proof.
  apply (proj1 (proj2 (processFileUpload_success_means_uploaded
                         scenarioDrive 0 "" false someCredentials "R"))
           someFile).
  reflexivity.
Defined.

(** The runs of [deleteFolderContents] on a folder id that is set, after
    the token refresh. *)
Lemma deleteFolderContents_after_token (drive : DriveClient) (fuel : nat)
  (folderId : string) (credentials : GoogleDriveCredentials)
  (defaultFolderId accessToken : string) (tokenCalls : list Call) :
  folderId <> "" ->
  getAccessToken drive credentials = Some (Returned accessToken, tokenCalls) ->
  deleteFolderContents drive fuel (Some folderId) credentials defaultFolderId
  = match isUnderDefaultFolder drive fuel folderId defaultFolderId
                               accessToken with
    | None => None
    | Some (Thrown e, guardCalls) =>
        Some (Thrown e, (tokenCalls ++ guardCalls)%list)
    | Some (Returned false, guardCalls) =>
        Some (Returned
                {| success := false; message := "";
                   delete_error := Some "Unauthorized folder access";
                   delete_details :=
                     Some ("Folder " ++ folderId
                           ++ " is not under the allowed default folder") |},
              (tokenCalls ++ guardCalls)%list)
    | Some (Returned true, guardCalls) =>
        match listDriveFiles drive (contentsParams folderId accessToken) with
        | Thrown reason =>
            Some (Thrown ("Failed to list folder contents: " ++ reason),
                  (tokenCalls ++ guardCalls
                   ++ [CallListDriveFiles
                         (contentsParams folderId accessToken)])%list)
        | Returned listed =>
            let files := filter (fun file => negb (isFolder file)) listed in
            Some (Returned
                    {| success := true;
                       message :=
                         deletedMessage
                           (length (filter (deleteSucceeds drive accessToken)
                                           files))
                           (length (filter
                                      (fun file =>
                                         negb (deleteSucceeds drive accessToken
                                                              file))
                                      files));
                       delete_error := None;
                       delete_details := None |},
                  (tokenCalls ++ guardCalls
                   ++ CallListDriveFiles (contentsParams folderId accessToken)
                   :: map (deleteCall accessToken) files)%list)
        end
    end.
Proof.
  intros Hne Htoken. unfold deleteFolderContents.
  rewrite (truthy_nonempty _ Hne). cbn [negb].
  rewrite Htoken. cbn [bind].
  destruct (isUnderDefaultFolder drive fuel folderId defaultFolderId
                                 accessToken) as [[[[]|e] guardCalls]|];
    cbn [bind negb]; try reflexivity.
  2: { cbn [ret]. now rewrite app_nil_r. }
  change {| parentFolderId := folderId; mimeType := None;
            accessToken := accessToken; orderBy := None;
            fields := Some "files(id,name,mimeType)" |}
    with (contentsParams folderId accessToken).
  cbv zeta.
  destruct (listDriveFiles drive (contentsParams folderId accessToken))
    as [listed|reason].
  - destruct (deleteEach_counts drive accessToken
                (filter (fun file => negb (isFolder file)) listed) 0 [])
      as (errors' & Heach & Hlen).
    run_async.
    replace (filter keptForDeletion listed)
      with (filter (fun file => negb (isFolder file)) listed)
      by (apply filter_ext; intros; now rewrite keptForDeletion_not_folder).
    rewrite Heach. cbn [fst snd Nat.add length] in *.
    rewrite Hlen. unfold deletedMessage.
    now rewrite app_nil_r.
  - run_async. now rewrite app_nil_r.
Qed.

Lemma deleteFolderContents_required (drive : DriveClient) (fuel : nat)
  (credentials : GoogleDriveCredentials) (defaultFolderId : string)
  (folderId : option string) :
  folderId = None \/ folderId = Some "" ->
  deleteFolderContents drive fuel folderId credentials defaultFolderId
  = Some (Returned {| success := false; message := "";
                      delete_error := Some "Folder ID is required";
                      delete_details := None |}, []).
Proof. intros [-> | ->]; reflexivity. Qed.

Lemma deleteFolderContents_token_failure (drive : DriveClient) (fuel : nat)
  (credentials : GoogleDriveCredentials) (defaultFolderId folderId : string)
  (message : string) (tokenCalls : list Call) :
  folderId <> "" ->
  getAccessToken drive credentials = Some (Thrown message, tokenCalls) ->
  deleteFolderContents drive fuel (Some folderId) credentials defaultFolderId
  = Some (Thrown message, tokenCalls).
Proof.
  intros Hne Htoken. unfold deleteFolderContents.
  rewrite (truthy_nonempty _ Hne). cbn [negb]. now rewrite Htoken.
Qed.

(** [deleteFolderContents] refuses before it touches the folder: a missing
    or empty folder id gives [Folder ID is required] with no call at all; a
    folder the guard does not find under the default folder gives
    [Unauthorized folder access], after the token refresh and the walk of
    the guard only; a failed token refresh is thrown after that one call. *)
Theorem deleteFolderContents_refusals
  (drive : DriveClient) (fuel : nat)
  (credentials : GoogleDriveCredentials) (defaultFolderId : string) :
  (forall folderId,
      folderId = None \/ folderId = Some "" ->
      deleteFolderContents drive fuel folderId credentials defaultFolderId
      = Some (Returned {| success := false; message := "";
                          delete_error := Some "Folder ID is required";
                          delete_details := None |}, []))
  /\ (forall folderId accessToken tokenCalls guardCalls,
         folderId <> "" ->
         getAccessToken drive credentials
         = Some (Returned accessToken, tokenCalls) ->
         isUnderDefaultFolder drive fuel folderId defaultFolderId accessToken
         = Some (Returned false, guardCalls) ->
         deleteFolderContents drive fuel (Some folderId) credentials
                              defaultFolderId
         = Some (Returned
                   {| success := false; message := "";
                      delete_error := Some "Unauthorized folder access";
                      delete_details :=
                        Some ("Folder " ++ folderId
                              ++ " is not under the allowed default folder") |},
                 (tokenCalls ++ guardCalls)%list))
  /\ (forall folderId message tokenCalls,
         folderId <> "" ->
         getAccessToken drive credentials
         = Some (Thrown message, tokenCalls) ->
         deleteFolderContents drive fuel (Some folderId) credentials
                              defaultFolderId
         = Some (Thrown message, tokenCalls)
         /\ exists params, tokenCalls = [CallRefreshAccessToken params]).
Proof.
  split; [|split].
  - intros folderId. apply deleteFolderContents_required.
  - intros folderId accessToken tokenCalls guardCalls Hne Htoken Hguard.
    rewrite (deleteFolderContents_after_token _ _ _ _ _ _ _ Hne Htoken).
    now rewrite Hguard.
  - intros folderId message tokenCalls Hne Htoken. split.
    + now apply deleteFolderContents_token_failure.
    + destruct (getAccessToken_one_call drive credentials) as (r & E & _).
      rewrite E in Htoken. injection Htoken as _ <-. eauto.
Qed.

Lemma deleteFolderContents_refusals_witness :
  deleteFolderContents scenarioDrive 2 (Some "G") someCredentials "R"
  = Some (Returned
            {| success := false; message := "";
               delete_error := Some "Unauthorized folder access";
               delete_details :=
                 Some "Folder G is not under the allowed default folder" |},
          [CallRefreshAccessToken
             {| tx_clientId := "client"; tx_clientSecret := "secret";
                tx_code := "refresh"; tx_redirectUri := "" |};
           lookup "token" "G"; lookup "token" "P"]).
Proof.
  apply (proj1 (proj2 (deleteFolderContents_refusals
                         scenarioDrive 2 someCredentials "R"))
           "G" "token"
           [CallRefreshAccessToken
              {| tx_clientId := "client"; tx_clientSecret := "secret";
                 tx_code := "refresh"; tx_redirectUri := "" |}]
           [lookup "token" "G"; lookup "token" "P"]).
  - discriminate.
  - reflexivity.
  - reflexivity.
Defined.

(** When the listing of an authorized folder fails, [deleteFolderContents]
    throws [Failed to list folder contents: ] followed by the reason, and
    no deletion was issued. *)
Theorem deleteFolderContents_listing_failure_is_thrown
  (drive : DriveClient) (fuel : nat) (folderId : string)
  (credentials : GoogleDriveCredentials)
  (defaultFolderId accessToken reason : string)
  (tokenCalls guardCalls : list Call) :
  folderId <> "" ->
  getAccessToken drive credentials = Some (Returned accessToken, tokenCalls) ->
  isUnderDefaultFolder drive fuel folderId defaultFolderId accessToken
  = Some (Returned true, guardCalls) ->
  listDriveFiles drive (contentsParams folderId accessToken) = Thrown reason ->
  deleteFolderContents drive fuel (Some folderId) credentials defaultFolderId
  = Some (Thrown ("Failed to list folder contents: " ++ reason),
          (tokenCalls ++ guardCalls
           ++ [CallListDriveFiles (contentsParams folderId accessToken)])%list)
  /\ Forall (fun c => isDeleteDriveFile c = false)
            (tokenCalls ++ guardCalls
             ++ [CallListDriveFiles (contentsParams folderId accessToken)])%list.
Proof.
  intros Hne Htoken Hguard Hlisting. split.
  - rewrite (deleteFolderContents_after_token _ _ _ _ _ _ _ Hne Htoken).
    now rewrite Hguard, Hlisting.
  - apply Forall_app. split; [|apply Forall_app; split].
    + apply Forall_forall. intros c Hin.
      destruct (getAccessToken_only_refresh _ _ _ _ _ Htoken Hin) as (p & ->).
      reflexivity.
    + pose proof (walk_calls_lookups drive defaultFolderId accessToken fuel
                                     folderId) as Hall.
      unfold walk in Hall. rewrite Hguard in Hall. simpl in Hall.
      eapply Forall_impl; [|exact Hall].
      intros c Hc. now destruct c.
    + now repeat constructor.
Qed.

Lemma deleteFolderContents_listing_failure_is_thrown_witness :
  deleteFolderContents listingFailsDrive 2 (Some "F") someCredentials "R"
  = Some (Thrown "Failed to list folder contents: Failed to list files: quota exceeded",
          [CallRefreshAccessToken
             {| tx_clientId := "client"; tx_clientSecret := "secret";
                tx_code := "refresh"; tx_redirectUri := "" |};
           lookup "token" "F";
           CallListDriveFiles (contentsParams "F" "token")]).
Proof.
  apply (proj1 (deleteFolderContents_listing_failure_is_thrown
                  listingFailsDrive 2 "F" someCredentials "R" "token"
                  "Failed to list files: quota exceeded"
                  [CallRefreshAccessToken
                     {| tx_clientId := "client"; tx_clientSecret := "secret";
                        tx_code := "refresh"; tx_redirectUri := "" |}]
                  [lookup "token" "F"]
                  ltac:(discriminate) eq_refl eq_refl eq_refl)).
Defined.

(** [deleteFolderContents] lists and deletes only in scope: a run that
    issued a listing or a deletion was given a non-empty folder id whose
    parent chain reaches the default folder, and every file it asked to
    delete is an entry of the listing of that folder that is not a
    folder. *)
Theorem deleteFolderContents_deletes_only_in_scope
  (drive : DriveClient) (fuel : nat) (folderId : option string)
  (credentials : GoogleDriveCredentials) (defaultFolderId : string)
  (r : Outcome DeleteOutcome) (calls : list Call) (c : Call) :
  deleteFolderContents drive fuel folderId credentials defaultFolderId
  = Some (r, calls) ->
  In c calls ->
  isListDriveFiles c = true \/ isDeleteDriveFile c = true ->
  exists id accessToken,
    folderId = Some id /\ id <> ""
    /\ reaches drive defaultFolderId accessToken id
    /\ (forall fileId token,
           c = CallDeleteDriveFile fileId token ->
           exists listed file,
             listDriveFiles drive (contentsParams id accessToken)
             = Returned listed
             /\ In file listed /\ file_id file = fileId
             /\ isFolder file = false).
Proof.
  intros Hrun Hin Hkind.
  destruct folderId as [id|]; [|injection Hrun as _ <-; contradiction].
  destruct (String.eqb_spec id "") as [->|Hne];
    [injection Hrun as _ <-; contradiction|].
  destruct (getAccessToken_one_call drive credentials)
    as ([accessToken|message] & Et & _).
  2: { exfalso. unfold deleteFolderContents in Hrun.
       rewrite (truthy_nonempty _ Hne), Et in Hrun. cbn [negb bind] in Hrun.
       injection Hrun as _ <-. destruct Hin as [<- | []].
       destruct Hkind; discriminate. }
  rewrite (deleteFolderContents_after_token _ _ _ _ _ _ _ Hne Et) in Hrun.
  assert (Hguardcalls :
            forall verdict guardCalls c',
              isUnderDefaultFolder drive fuel id defaultFolderId accessToken
              = Some (verdict, guardCalls) ->
              In c' (CallRefreshAccessToken
                       {| tx_clientId := clientId credentials;
                          tx_clientSecret := clientSecret credentials;
                          tx_code := refreshToken credentials;
                          tx_redirectUri := "" |} :: guardCalls) ->
              isListDriveFiles c' = false /\ isDeleteDriveFile c' = false).
  { intros verdict guardCalls c' Hguard [<- | Hin']; [now split|].
    pose proof (walk_calls_lookups drive defaultFolderId accessToken fuel id)
      as Hall.
    unfold walk in Hall. rewrite Hguard in Hall. simpl in Hall.
    pose proof (proj1 (Forall_forall _ _) Hall c' Hin') as Hc.
    now destruct c'. }
  destruct (isUnderDefaultFolder drive fuel id defaultFolderId accessToken)
    as [[[[]|e] guardCalls]|] eqn:Eg; try discriminate.
  - exists id, accessToken. split; [reflexivity|]. split; [exact Hne|].
    split; [exact (walk_true_reaches _ _ _ _ _ _ Eg)|].
    intros fileId token ->.
    destruct (listDriveFiles drive (contentsParams id accessToken))
      as [listed|reason] eqn:El; cbv zeta in Hrun; injection Hrun as _ <-.
    + simpl in Hin. destruct Hin as [Hin | Hin]; [discriminate|].
      apply in_app_or in Hin. destruct Hin as [Hin | Hin].
      { destruct (Hguardcalls _ _ _ eq_refl (or_intror Hin)); discriminate. }
      destruct Hin as [Hin | Hin]; [discriminate|].
      apply in_map_iff in Hin. destruct Hin as (file & Hcall & Hfile).
      apply filter_In in Hfile. destruct Hfile as (Hlisted & Hnot).
      injection Hcall as <- _.
      exists listed, file. repeat split; auto.
      now destruct (isFolder file).
    + simpl in Hin. destruct Hin as [Hin | Hin]; [discriminate|].
      apply in_app_or in Hin. destruct Hin as [Hin | Hin].
      { destruct (Hguardcalls _ _ _ eq_refl (or_intror Hin)); discriminate. }
      destruct Hin as [Hin | []]. discriminate.
  - exfalso. injection Hrun as _ <-.
    destruct (Hguardcalls _ _ c eq_refl Hin) as (Hl & Hd).
    destruct Hkind; congruence.
  - exfalso. injection Hrun as _ <-.
    destruct (Hguardcalls _ _ c eq_refl Hin) as (Hl & Hd).
    destruct Hkind; congruence.
Qed.

Lemma deleteFolderContents_deletes_only_in_scope_witness :
  exists id accessToken,
    Some "F" = Some id /\ id <> ""
    /\ reaches contentsDrive "R" accessToken id
    /\ (forall fileId token,
           CallDeleteDriveFile "f2" "token" = CallDeleteDriveFile fileId token ->
           exists listed file,
             listDriveFiles contentsDrive (contentsParams id accessToken)
             = Returned listed
             /\ In file listed /\ file_id file = fileId
             /\ isFolder file = false).
Proof.
  apply (deleteFolderContents_deletes_only_in_scope
           contentsDrive 2 (Some "F") someCredentials "R"
           (Returned {| success := true;
                        message := "Deleted 1 files from folder. Errors: 1";
                        delete_error := None; delete_details := None |})
           [CallRefreshAccessToken
              {| tx_clientId := "client"; tx_clientSecret := "secret";
                 tx_code := "refresh"; tx_redirectUri := "" |};
            CallGetDriveFileInfo "F" "token" "parents";
            CallListDriveFiles (contentsParams "F" "token");
            CallDeleteDriveFile "f1" "token";
            CallDeleteDriveFile "f2" "token"]
           (CallDeleteDriveFile "f2" "token")).
  - reflexivity.
  - simpl. auto 6.
  - now right.
Defined.

(** ** [listFolders] and [createFolder] *)

Lemma toFolderInfos_ids (clock : nat -> string) files index :
  map folder_id (toFolderInfos clock index files) = map file_id files
  /\ map folder_name (toFolderInfos clock index files) = map file_name files.
Proof.
  revert index. induction files as [|file rest IH]; intros index; simpl.
  - now split.
  - destruct (IH (S index)) as (-> & ->). now split.
Qed.

Lemma orNull_not_empty (a : option string) : orNull a <> Some "".
Proof.
  unfold orNull, truthyOpt. destruct a as [v|]; [|discriminate].
  destruct (truthy v) eqn:E; [|discriminate].
  intros [= ->]. discriminate.
Qed.

Lemma toFolderInfos_nth (clock : nat -> string) files index i file :
  nth_error files i = Some file ->
  nth_error (toFolderInfos clock index files) i
  = Some {| folder_id := file_id file;
            folder_name := file_name file;
            folder_webViewLink :=
              match file_webViewLink file with
              | Some link => if link =? "" then None else Some link
              | None => None
              end;
            folder_createdTime :=
              match file_createdTime file with
              | Some time => if time =? "" then clock (index + i) else time
              | None => clock (index + i)
              end |}.
Proof.
  revert index i. induction files as [|f rest IH]; intros index i H.
  - destruct i; discriminate.
  - destruct i as [|i]; simpl in *.
    + injection H as ->. rewrite Nat.add_0_r. do 2 f_equal.
      * unfold orNull, truthyOpt, truthy.
        destruct (file_webViewLink file) as [link|]; [|reflexivity].
        now destruct (link =? "").
      * unfold orElseOpt, orElse, truthy.
        destruct (file_createdTime file) as [time|]; [|reflexivity].
        now destruct (time =? "").
    + rewrite (IH (S index) i H). now rewrite Nat.add_succ_r.
Qed.

(** [listFolders] issues one listing, restricted to the folder media type,
    and returns one entry per listed folder, in the order of the listing.
    The entry of a folder has its id and its name; its link is the link of
    the folder, or [null] when the folder has no link or an empty one, and
    never a link the listing did not give; its creation time is that of the
    folder, or the time of the clock when the folder has none or an empty
    one.  A failed listing is thrown under the prefix
    [Failed to list folders: ]. *)
Theorem listFolders_one_entry_per_folder
  (drive : DriveClient) (clock : nat -> string)
  (parentFolderId accessToken : string) :
  let params := folderListParams parentFolderId accessToken in
  match listDriveFiles drive params with
  | Returned files =>
      exists folders,
        listFolders drive clock parentFolderId accessToken
        = Some (Returned folders, [CallListDriveFiles params])
        /\ map folder_id folders = map file_id files
        /\ map folder_name folders = map file_name files
        /\ Forall (fun info => folder_webViewLink info <> Some "") folders
        /\ (forall i file,
               nth_error files i = Some file ->
               nth_error folders i
               = Some {| folder_id := file_id file;
                         folder_name := file_name file;
                         folder_webViewLink :=
                           match file_webViewLink file with
                           | Some link =>
                               if link =? "" then None else Some link
                           | None => None
                           end;
                         folder_createdTime :=
                           match file_createdTime file with
                           | Some time =>
                               if time =? "" then clock i else time
                           | None => clock i
                           end |})
  | Thrown reason =>
      listFolders drive clock parentFolderId accessToken
      = Some (Thrown ("Failed to list folders: " ++ reason),
              [CallListDriveFiles params])
  end.
Proof.
  intros params. unfold listFolders.
  change {| parentFolderId := parentFolderId;
            mimeType := Some "application/vnd.google-apps.folder";
            accessToken := accessToken; orderBy := None; fields := None |}
    with params.
  cbv zeta. destruct (listDriveFiles drive params) as [files|reason];
    run_async; [|reflexivity].
  exists (toFolderInfos clock 0 files). split; [reflexivity|].
  destruct (toFolderInfos_ids clock files 0) as (Hids & Hnames).
  split; [exact Hids|]. split; [exact Hnames|]. split.
  - clear Hids Hnames. generalize 0.
    induction files as [|f rest IH]; intros n; simpl; constructor.
    + apply orNull_not_empty.
    + apply IH.
  - intros i file Hnth. exact (toFolderInfos_nth clock files 0 i file Hnth).
Qed.

Lemma liftF_getAccessToken (drive : DriveClient)
  (credentials : GoogleDriveCredentials) :
  exists r params,
    getAccessToken drive credentials
    = Some (r, [CallRefreshAccessToken params])
    /\ liftF (getAccessToken drive credentials)
       = Some (r, [DriveCall (CallRefreshAccessToken params)])
    /\ match r with
       | Returned token => token <> ""
       | Thrown message =>
           exists reason,
             message = "Failed to refresh access token: " ++ reason
       end.
Proof.
  destruct (getAccessToken_one_call drive credentials) as (r & E & Hr).
  eexists r, _. split; [exact E|]. split; [now rewrite E|]. exact Hr.
Qed.

(** [createFolder] asks for a name: without one it answers
    [Folder name is required] and makes no call.  With a name it refreshes
    the token and creates the folder under [parentId], or under the default
    folder when [parentId] is missing or empty; it looks no folder up, so
    the parent is not checked against the default folder.  It returns only
    successes, with the folder the client created; every failure is thrown
    under the prefix [Failed to create folder: ]. *)
Theorem createFolder_creates_under_any_parent
  (drive : DriveClient)
  (createDriveFolder : CreateFolderParams -> Outcome CreateFolderResponse)
  (parentId : option string) (credentials : GoogleDriveCredentials)
  (defaultFolderId : string) :
  (forall name,
      name = None \/ name = Some "" ->
      createFolder drive createDriveFolder name parentId credentials
                   defaultFolderId
      = Some (Returned {| create_success := false; create_folder := None;
                          create_error := Some "Folder name is required";
                          create_details := None |}, []))
  /\ (forall name,
         name <> "" ->
         exists r calls,
           createFolder drive createDriveFolder (Some name) parentId
                        credentials defaultFolderId = Some (r, calls)
           /\ Forall
                (fun c =>
                   (exists params, c = DriveCall (CallRefreshAccessToken params))
                   \/ exists accessToken,
                       c = CallCreateDriveFolder
                             {| create_name := name;
                                create_parentId :=
                                  orElseOpt parentId defaultFolderId;
                                create_accessToken := accessToken |})
                calls
           /\ match r with
              | Returned outcome =>
                  create_success outcome = true
                  /\ exists accessToken folder,
                      createDriveFolder
                        {| create_name := name;
                           create_parentId :=
                             orElseOpt parentId defaultFolderId;
                           create_accessToken := accessToken |}
                      = Returned folder
                      /\ create_folder outcome = Some folder
              | Thrown message =>
                  exists reason,
                    message = "Failed to create folder: " ++ reason
              end).
Proof.
  split.
  - intros name [-> | ->]; reflexivity.
  - intros name Hne. unfold createFolder.
    rewrite (truthy_nonempty _ Hne). cbn [negb].
    destruct (liftF_getAccessToken drive credentials)
      as ([token|message] & params & _ & -> & Hr).
    + cbn [bindF try_catchF]. cbv zeta.
      destruct (createDriveFolder _) as [folder|reason] eqn:Ec;
        cbn [awaitF bindF retF throwF].
      * eexists _, _. split; [reflexivity|]. split.
        -- constructor; [left; eauto|].
           constructor; [right; eauto|]. constructor.
        -- split; [reflexivity|]. exists token, folder.
           split; [exact Ec|]. now destruct folder.
      * eexists _, _. split; [reflexivity|]. split.
        -- constructor; [left; eauto|].
           constructor; [right; eauto|]. constructor.
        -- now exists reason.
    + cbn [bindF try_catchF throwF].
      eexists _, _. split; [reflexivity|]. split.
      * constructor; [left; eauto|]. constructor.
      * now eexists.
Qed.

Lemma createFolder_creates_under_any_parent_witness :
  exists r calls,
    createFolder scenarioDrive
      (fun params =>
         Returned {| created_id := "new"; created_name := create_name params;
                     created_webViewLink := None |})
      (Some "reports") (Some "elsewhere") someCredentials "R"
    = Some (r, calls)
    /\ Forall
         (fun c =>
            (exists params, c = DriveCall (CallRefreshAccessToken params))
            \/ exists accessToken,
                c = CallCreateDriveFolder
                      {| create_name := "reports";
                         create_parentId := orElseOpt (Some "elsewhere") "R";
                         create_accessToken := accessToken |})
         calls
    /\ match r with
       | Returned outcome =>
           create_success outcome = true
           /\ exists accessToken folder,
               (fun params =>
                  Returned {| created_id := "new";
                              created_name := create_name params;
                              created_webViewLink := None |})
                 {| create_name := "reports";
                    create_parentId := orElseOpt (Some "elsewhere") "R";
                    create_accessToken := accessToken |}
               = Returned folder
               /\ create_folder outcome = Some folder
       | Thrown message =>
           exists reason, message = "Failed to create folder: " ++ reason
       end.
Proof.
  apply (proj2 (createFolder_creates_under_any_parent
                  scenarioDrive
                  (fun params =>
                     Returned {| created_id := "new";
                                 created_name := create_name params;
                                 created_webViewLink := None |})
                  (Some "elsewhere") someCredentials "R")
           "reports").
  discriminate.
Defined.

(** ** The handlers *)

Lemma truthyOpt_true (s : option string) :
  truthyOpt s = true -> exists v, s = Some v /\ truthy v = true /\ v <> "".
Proof.
  destruct s as [v|]; [|discriminate]. simpl. intros H.
  exists v. repeat split; auto. now apply truthy_true_nonempty.
Qed.

Lemma envCredentials_complete (env : Env) :
  envComplete env = true ->
  exists id secret token folder,
    GOOGLE_CLIENT_ID env = Some id
    /\ GOOGLE_CLIENT_SECRET env = Some secret
    /\ GOOGLE_REFRESH_TOKEN env = Some token
    /\ GOOGLE_DRIVE_DEFAULT_FOLDER_ID env = Some folder
    /\ folder <> ""
    /\ envCredentials env
       = Some ({| clientId := id; clientSecret := secret;
                  refreshToken := token |}, folder).
Proof.
  unfold envComplete, envCredentials. intros H.
  apply andb_prop in H. destruct H as (H & H4).
  apply andb_prop in H. destruct H as (H & H3).
  apply andb_prop in H. destruct H as (H1 & H2).
  destruct (truthyOpt_true _ H1) as (id & -> & T1 & _).
  destruct (truthyOpt_true _ H2) as (secret & -> & T2 & _).
  destruct (truthyOpt_true _ H3) as (token & -> & T3 & _).
  destruct (truthyOpt_true _ H4) as (folder & -> & T4 & Hne).
  exists id, secret, token, folder. rewrite T1, T2, T3, T4. now repeat split.
Qed.

Lemma envCredentials_incomplete (env : Env) :
  envComplete env = false -> envCredentials env = None.
Proof.
  unfold envComplete, envCredentials, truthyOpt.
  destruct (GOOGLE_CLIENT_ID env), (GOOGLE_CLIENT_SECRET env),
    (GOOGLE_REFRESH_TOKEN env), (GOOGLE_DRIVE_DEFAULT_FOLDER_ID env);
    try reflexivity; try (now rewrite ?andb_false_r; intros _).
  now intros ->.
Qed.

Lemma errorResponse_status (failure fallback message : string) :
  status (errorResponse failure fallback message) = 500.
Proof.
  unfold errorResponse.
  destruct (includes message "Failed to refresh access token");
    [reflexivity|].
  destruct (includes message "No access token"); [reflexivity|].
  now destruct (includes message failure).
Qed.

Lemma prefix_empty (s : string) : String.prefix "" s = true.
Proof. now destruct s. Qed.

Lemma prefix_app (p rest : string) : String.prefix p (p ++ rest) = true.
Proof.
  induction p as [|c p IH]; simpl; [apply prefix_empty|].
  now destruct (Ascii.ascii_dec c c).
Qed.

Lemma dropChars_app (p rest : string) :
  dropChars (String.length p) (p ++ rest) = rest.
Proof. induction p as [|c p IH]; simpl; auto. Qed.

Lemma replaceFirst_unfold (s pattern replacement : string) :
  replaceFirst s pattern replacement
  = if String.prefix pattern s
    then replacement ++ dropChars (String.length pattern) s
    else
      match s with
      | EmptyString => EmptyString
      | String c rest => String c (replaceFirst rest pattern replacement)
      end.
Proof. now destruct s. Qed.

(** Removing a prefix of a message leaves what follows it. *)
Lemma replaceFirst_prefix (p rest : string) :
  replaceFirst (p ++ rest) p "" = rest.
Proof.
  rewrite replaceFirst_unfold, prefix_app. simpl. apply dropChars_app.
Qed.

Lemma includes_unfold (s searched : string) :
  includes s searched
  = (String.prefix searched s
     || match s with
        | EmptyString => false
        | String _ rest => includes rest searched
        end).
Proof. now destruct s. Qed.

Lemma includes_prefix (p rest : string) : includes (p ++ rest) p = true.
Proof. rewrite includes_unfold. now rewrite prefix_app. Qed.

Lemma includes_app_l (s searched rest : string) :
  includes s searched = true -> includes (s ++ rest) searched = true.
Proof.
  assert (Hp : forall p s', String.prefix p s' = true ->
                            String.prefix p (s' ++ rest) = true).
  { induction p as [|c p IH]; intros s' H; [apply prefix_empty|].
    destruct s' as [|c' s']; [discriminate|]. simpl in *.
    destruct (Ascii.ascii_dec c c'); [auto|discriminate]. }
  induction s as [|c s IH]; intros H.
  - rewrite includes_unfold in H. rewrite orb_false_r in H.
    rewrite includes_unfold. now rewrite (Hp _ _ H).
  - rewrite includes_unfold in H. apply orb_prop in H.
    change ((String c s) ++ rest) with (String c (s ++ rest)).
    rewrite includes_unfold. destruct H as [H | H].
    + change (String c (s ++ rest)) with ((String c s) ++ rest).
      now rewrite (Hp _ _ H).
    + rewrite (IH H). apply orb_true_r.
Qed.

(** A failed token refresh, as the [catch] block of a handler sorts it: the
    details are the reason of the failure. *)
Lemma errorResponse_refresh_failure (failure fallback reason : string) :
  errorResponse failure fallback ("Failed to refresh access token: " ++ reason)
  = json_ (ErrorBody "Failed to refresh access token" (Some reason)) 500.
Proof.
  unfold errorResponse.
  rewrite (includes_app_l "Failed to refresh access token: "
                          "Failed to refresh access token" reason eq_refl).
  now rewrite replaceFirst_prefix.
Qed.

(** With an incomplete environment every folder handler answers 400,
    [Missing required environment variables], before it reads the request
    and with no call to the client. *)
Theorem handlers_require_environment
  (drive : DriveClient)
  (createDriveFolder : CreateFolderParams -> Outcome CreateFolderResponse)
  (clock : nat -> string) (fuel : nat) (env : Env) :
  envComplete env = false ->
  (forall requestJson,
      deleteFolderContentsHandler drive fuel env requestJson
      = Some (Returned missingEnvironment, []))
  /\ (forall parentId,
         listFoldersHandler drive clock env parentId
         = Some (Returned missingEnvironment, []))
  /\ (forall requestJson,
         createFolderHandler drive createDriveFolder env requestJson
         = Some (Returned missingEnvironment, [])).
Proof.
  intros H. apply envCredentials_incomplete in H.
  unfold deleteFolderContentsHandler, listFoldersHandler, createFolderHandler.
  rewrite H. now repeat split.
Qed.

Lemma handlers_require_environment_witness :
  deleteFolderContentsHandler scenarioDrive 2
    {| GOOGLE_CLIENT_ID := Some "client"; GOOGLE_CLIENT_SECRET := Some "secret";
       GOOGLE_REFRESH_TOKEN := Some "refresh";
       GOOGLE_DRIVE_DEFAULT_FOLDER_ID := Some "" |}
    (Returned (Some "C"))
  = Some (Returned missingEnvironment, []).
Proof.
  apply (proj1 (handlers_require_environment
                  scenarioDrive (fun _ => Thrown "unused") (fun _ => "") 2
                  {| GOOGLE_CLIENT_ID := Some "client";
                     GOOGLE_CLIENT_SECRET := Some "secret";
                     GOOGLE_REFRESH_TOKEN := Some "refresh";
                     GOOGLE_DRIVE_DEFAULT_FOLDER_ID := Some "" |}
                  eq_refl)).
Defined.

(** The response of [deleteFolderContentsHandler] to a result of
    [deleteFolderContents]. *)
Lemma deleteFolderContentsHandler_shape (drive : DriveClient) (fuel : nat)
  (env : Env) (requestJson : Outcome (option string)) credentials
  defaultFolderId :
  envCredentials env = Some (credentials, defaultFolderId) ->
  deleteFolderContentsHandler drive fuel env requestJson
  = match requestJson with
    | Thrown reason =>
        Some (Returned (errorResponse "Failed to list folder contents"
                                      "Failed to delete folder contents"
                                      reason), [])
    | Returned folderId =>
        match deleteFolderContents drive fuel folderId credentials
                                   defaultFolderId with
        | None => None
        | Some (Thrown reason, calls) =>
            Some (Returned (errorResponse "Failed to list folder contents"
                                          "Failed to delete folder contents"
                                          reason), calls)
        | Some (Returned result, calls) =>
            Some (Returned
                    (if success result
                     then json_ (DeletedBody (message result)) 200
                     else
                       match delete_error result with
                       | Some error =>
                           if error =? "Unauthorized folder access"
                           then json_ (ErrorBody error (delete_details result))
                                      403
                           else json_ (ErrorBody
                                         (orElse error
                                            "Delete folder contents failed")
                                         None) 400
                       | None =>
                           json_ (ErrorBody "Delete folder contents failed"
                                            None) 400
                       end),
                  calls)
        end
    end.
Proof.
  intros Henv. unfold deleteFolderContentsHandler. rewrite Henv.
  destruct requestJson as [folderId|reason]; unfold settled; cbn [bind];
    [|reflexivity].
  destruct (deleteFolderContents drive fuel folderId credentials
                                 defaultFolderId) as [[[result|reason] calls]|];
    cbn [bind try_catch]; try reflexivity.
  - destruct (success result); cbn [negb ret]; rewrite ?app_nil_r;
      [reflexivity|].
    destruct (delete_error result) as [error|]; cbn [ret];
      rewrite ?app_nil_r; [|reflexivity].
    destruct (error =? "Unauthorized folder access"); cbn [ret];
      now rewrite ?app_nil_r.
  - cbn [ret]. now rewrite !app_nil_r.
Qed.

(** [deleteFolderContentsHandler] never throws and answers 200, 400, 403
    or 500.  It answers 200 only for a non-empty folder id whose parent
    chain reaches the default folder of the environment, and 403 only for
    one whose parent chain does not reach it; a 403 comes with no listing
    and no deletion. *)
Theorem deleteFolderContentsHandler_statuses
  (drive : DriveClient) (fuel : nat) (env : Env)
  (requestJson : Outcome (option string)) :
  (deleteFolderContentsHandler drive fuel env requestJson = None
   \/ exists response calls,
       deleteFolderContentsHandler drive fuel env requestJson
       = Some (Returned response, calls))
  /\ (forall response calls,
         deleteFolderContentsHandler drive fuel env requestJson
         = Some (Returned response, calls) ->
         (status response = 200 \/ status response = 400
          \/ status response = 403 \/ status response = 500)
         /\ (status response = 200 ->
             exists id defaultFolderId accessToken,
               requestJson = Returned (Some id) /\ id <> ""
               /\ GOOGLE_DRIVE_DEFAULT_FOLDER_ID env = Some defaultFolderId
               /\ reaches drive defaultFolderId accessToken id)
         /\ (status response = 403 ->
             exists id defaultFolderId accessToken,
               requestJson = Returned (Some id) /\ id <> ""
               /\ GOOGLE_DRIVE_DEFAULT_FOLDER_ID env = Some defaultFolderId
               /\ ~ reaches drive defaultFolderId accessToken id
               /\ Forall (fun c => isListDriveFiles c = false
                                   /\ isDeleteDriveFile c = false) calls)).
Proof.
  destruct (envComplete env) eqn:Henv.
  2: { apply envCredentials_incomplete in Henv.
       unfold deleteFolderContentsHandler. rewrite Henv. split.
       - right. now eexists _, _.
       - intros response calls [= <- <-]. split; [auto|].
         split; discriminate. }
  destruct (envCredentials_complete env Henv)
    as (cid & secret & token & defaultFolderId & _ & _ & _ & Hd & _ & Hcred).
  rewrite (deleteFolderContentsHandler_shape _ _ _ _ _ _ Hcred).
  set (credentials := {| clientId := cid; clientSecret := secret;
                         refreshToken := token |}) in *.
  destruct requestJson as [folderId|reason].
  2: { split; [right; now eexists _, _|].
       intros response calls [= <- <-]. rewrite errorResponse_status.
       split; [auto|]. split; discriminate. }
  pose proof (deleteFolderContents_required drive fuel credentials
                                             defaultFolderId) as Hrequired.
  destruct folderId as [id|].
  2: { rewrite (Hrequired None (or_introl eq_refl)). split.
       - right. now eexists _, _.
       - intros response calls [= <- <-]. cbn. split; [auto|].
         split; discriminate. }
  destruct (String.eqb_spec id "") as [->|Hne].
  { rewrite (Hrequired (Some "") (or_intror eq_refl)). split.
    - right. now eexists _, _.
    - intros response calls [= <- <-]. cbn. split; [auto|].
      split; discriminate. }
  clear Hrequired.
  destruct (getAccessToken_one_call drive credentials)
    as ([accessToken|failure] & Et & _).
  2: { rewrite (deleteFolderContents_token_failure _ _ _ _ _ _ _ Hne Et).
       split; [right; now eexists _, _|].
       intros response calls [= <- <-]. rewrite errorResponse_status.
       split; [auto|]. split; discriminate. }
  rewrite (deleteFolderContents_after_token _ _ _ _ _ _ _ Hne Et).
  pose proof (walk_calls_lookups drive defaultFolderId accessToken fuel id)
    as Hlook. unfold walk in Hlook.
  destruct (isUnderDefaultFolder drive fuel id defaultFolderId accessToken)
    as [[[[]|e] guardCalls]|] eqn:Eg.
  - destruct (listDriveFiles drive (contentsParams id accessToken))
      as [listed|reason]; cbv zeta.
    + split; [right; now eexists _, _|].
      intros response calls [= <- <-]. cbn. split; [auto|]. split.
      * intros _. exists id, defaultFolderId, accessToken.
        repeat split; auto. exact (walk_true_reaches _ _ _ _ _ _ Eg).
      * discriminate.
    + split; [right; now eexists _, _|].
      intros response calls [= <- <-]. rewrite errorResponse_status.
      split; [auto|]. split; discriminate.
  - split; [right; now eexists _, _|].
    intros response calls [= <- <-]. cbn. split; [auto|]. split.
    + discriminate.
    + intros _. exists id, defaultFolderId, accessToken.
      repeat split; auto.
      * exact (walk_false_unreachable _ _ _ _ _ _ Eg).
      * simpl in Hlook. constructor; [now split|].
        eapply Forall_impl; [|exact Hlook]. intros c Hc. now destruct c.
  - split; [right; now eexists _, _|].
    intros response calls [= <- <-]. rewrite errorResponse_status.
    split; [auto|]. split; discriminate.
  - split; [now left|discriminate].
Qed.

Lemma deleteFolderContentsHandler_statuses_witness :
  exists id defaultFolderId accessToken,
    Returned (Some "G") = Returned (Some id) /\ id <> ""
    /\ GOOGLE_DRIVE_DEFAULT_FOLDER_ID someEnv = Some defaultFolderId
    /\ ~ reaches scenarioDrive defaultFolderId accessToken id
    /\ Forall (fun c => isListDriveFiles c = false
                        /\ isDeleteDriveFile c = false)
              [CallRefreshAccessToken
                 {| tx_clientId := "client"; tx_clientSecret := "secret";
                    tx_code := "refresh"; tx_redirectUri := "" |};
               lookup "token" "G"; lookup "token" "P"].
Proof.
  apply (proj2 (proj2 (proj2 (deleteFolderContentsHandler_statuses
                                scenarioDrive 2 someEnv
                                (Returned (Some "G")))
                         (json_ (ErrorBody "Unauthorized folder access"
                                   (Some "Folder G is not under the allowed default folder"))
                                403)
                         _ eq_refl)));
    reflexivity.
Defined.

Lemma replaceFirst_skip (c : Ascii.ascii) (s pattern replacement : string) :
  String.prefix pattern (String c s) = false ->
  replaceFirst (String c s) pattern replacement
  = String c (replaceFirst s pattern replacement).
Proof. intros H. rewrite replaceFirst_unfold. now rewrite H. Qed.

(** The failure of a token refresh inside [createFolder], as the [catch]
    block of the handler sorts it: the prefix of [createFolder] stays in
    the details. *)
Lemma errorResponse_wrapped_refresh_failure (reason : string) :
  errorResponse "Failed to create folder" "Failed to create folder"
    ("Failed to create folder: "
     ++ "Failed to refresh access token: " ++ reason)
  = json_ (ErrorBody "Failed to refresh access token"
             (Some ("Failed to create folder: " ++ reason))) 500.
Proof.
  unfold errorResponse.
  change ("Failed to create folder: "
          ++ "Failed to refresh access token: " ++ reason)
    with ("Failed to create folder: Failed to refresh access token: "
          ++ reason) at 1.
  rewrite (includes_app_l
             "Failed to create folder: Failed to refresh access token: "
             "Failed to refresh access token" reason eq_refl).
  do 3 f_equal. cbn [append].
  repeat (rewrite replaceFirst_skip by reflexivity).
  do 25 f_equal.
  exact (replaceFirst_prefix "Failed to refresh access token: " reason).
Qed.

(** When the token refresh fails, the delete and the list handler answer
    500 with the error [Failed to refresh access token] and the reason of
    the failure as details, after that one call.  A response without a
    token is such a failure: its details are
    [No access token in response]. *)
Theorem handlers_report_refresh_failure
  (drive : DriveClient) (clock : nat -> string) (fuel : nat) (env : Env)
  (credentials : GoogleDriveCredentials) (defaultFolderId reason : string)
  (calls : list Call) :
  envCredentials env = Some (credentials, defaultFolderId) ->
  getAccessToken drive credentials
  = Some (Thrown ("Failed to refresh access token: " ++ reason), calls) ->
  (forall folderId,
      folderId <> "" ->
      deleteFolderContentsHandler drive fuel env (Returned (Some folderId))
      = Some (Returned
                (json_ (ErrorBody "Failed to refresh access token"
                          (Some reason)) 500),
              calls))
  /\ (forall parentId,
         listFoldersHandler drive clock env parentId
         = Some (Returned
                   (json_ (ErrorBody "Failed to refresh access token"
                             (Some reason)) 500),
                 calls))
  /\ (exists params, calls = [CallRefreshAccessToken params])
  /\ ((exists response,
          refreshAccessToken drive
            {| tx_clientId := clientId credentials;
               tx_clientSecret := clientSecret credentials;
               tx_code := refreshToken credentials;
               tx_redirectUri := "" |} = Returned response) ->
      reason = "No access token in response").
Proof.
  intros Henv Htoken. split; [|split; [|split]].
  - intros folderId Hne.
    rewrite (deleteFolderContentsHandler_shape _ _ _ _ _ _ Henv).
    rewrite (deleteFolderContents_token_failure _ _ _ _ _ _ _ Hne Htoken).
    now rewrite errorResponse_refresh_failure.
  - intros parentId. unfold listFoldersHandler. rewrite Henv, Htoken.
    cbn [bind try_catch ret]. rewrite errorResponse_refresh_failure.
    now rewrite app_nil_r.
  - destruct (getAccessToken_one_call drive credentials) as (r & E & _).
    rewrite E in Htoken. injection Htoken as _ <-. eauto.
  - intros (response & Hresponse).
    rewrite getAccessToken_unfold in Htoken. cbv zeta in Htoken.
    rewrite Hresponse in Htoken.
    destruct (truthy (access_token response)); [discriminate|].
    injection Htoken as H _. now symmetry.
Qed.

Lemma handlers_report_refresh_failure_witness :
  deleteFolderContentsHandler expiredDrive 2 someEnv (Returned (Some "C"))
  = Some (Returned
            (json_ (ErrorBody "Failed to refresh access token"
                      (Some "OAuth error: invalid_grant")) 500),
          [CallRefreshAccessToken
             {| tx_clientId := "client"; tx_clientSecret := "secret";
                tx_code := "refresh"; tx_redirectUri := "" |}]).
Proof.
  apply (proj1 (handlers_report_refresh_failure
                  expiredDrive (fun _ => "") 2 someEnv
                  {| clientId := "client"; clientSecret := "secret";
                     refreshToken := "refresh" |}
                  "R" "OAuth error: invalid_grant" _ eq_refl eq_refl)).
  discriminate.
Defined.

(** When the token refresh fails, the create handler answers 500 with the
    error [Failed to refresh access token] too, but its details keep the
    prefix that [createFolder] put before the message:
    [Failed to create folder: ] followed by the reason. *)
Theorem createFolderHandler_refresh_failure_details
  (drive : DriveClient)
  (createDriveFolder : CreateFolderParams -> Outcome CreateFolderResponse)
  (env : Env) (credentials : GoogleDriveCredentials)
  (defaultFolderId reason name : string) (parentId : option string)
  (calls : list Call) :
  envCredentials env = Some (credentials, defaultFolderId) ->
  getAccessToken drive credentials
  = Some (Thrown ("Failed to refresh access token: " ++ reason), calls) ->
  name <> "" ->
  createFolderHandler drive createDriveFolder env
    (Returned {| request_name := Some name; request_parentId := parentId |})
  = Some (Returned
            (json_ (ErrorBody "Failed to refresh access token"
                      (Some ("Failed to create folder: " ++ reason))) 500),
          map DriveCall calls).
Proof.
  intros Henv Htoken Hne. unfold createFolderHandler. rewrite Henv.
  unfold settled, liftF at 1. cbn [map bindF request_name request_parentId].
  unfold createFolder. rewrite (truthy_nonempty _ Hne). cbn [negb].
  rewrite Htoken. cbn [liftF bindF try_catchF throwF retF app].
  rewrite errorResponse_wrapped_refresh_failure.
  now rewrite !app_nil_r.
Qed.

Lemma createFolderHandler_refresh_failure_details_witness :
  createFolderHandler expiredDrive (fun _ => Thrown "unused") someEnv
    (Returned {| request_name := Some "reports"; request_parentId := None |})
  = Some (Returned
            (json_ (ErrorBody "Failed to refresh access token"
                      (Some "Failed to create folder: OAuth error: invalid_grant"))
                   500),
          map DriveCall
              [CallRefreshAccessToken
                 {| tx_clientId := "client"; tx_clientSecret := "secret";
                    tx_code := "refresh"; tx_redirectUri := "" |}]).
Proof.
  apply (createFolderHandler_refresh_failure_details
           expiredDrive (fun _ => Thrown "unused") someEnv
           {| clientId := "client"; clientSecret := "secret";
              refreshToken := "refresh" |}
           "R" "OAuth error: invalid_grant" "reports" None _ eq_refl eq_refl).
  discriminate.
Defined.

(** With a complete environment and a token, the list handler lists the
    folder named by [parentId] whenever [parentId] is set and not empty,
    the text [null] included, which is passed on as a folder id like any
    other, and the default folder otherwise; it answers 200 with the
    folders of that listing. *)
Theorem listFoldersHandler_lists_the_named_parent
  (drive : DriveClient) (clock : nat -> string) (env : Env)
  (parentId : option string) (credentials : GoogleDriveCredentials)
  (defaultFolderId accessToken : string) (tokenCalls : list Call)
  (files : list DriveFile) :
  let parentFolderId :=
    match parentId with
    | Some id => if id =? "" then defaultFolderId else id
    | None => defaultFolderId
    end in
  envCredentials env = Some (credentials, defaultFolderId) ->
  getAccessToken drive credentials = Some (Returned accessToken, tokenCalls) ->
  listDriveFiles drive (folderListParams parentFolderId accessToken)
  = Returned files ->
  listFoldersHandler drive clock env parentId
  = Some (Returned (json_ (FoldersBody (toFolderInfos clock 0 files)) 200),
          (tokenCalls
           ++ [CallListDriveFiles
                 (folderListParams parentFolderId accessToken)])%list).
Proof.
  intros parentFolderId Henv Htoken Hlisted.
  unfold listFoldersHandler. rewrite Henv, Htoken. cbn [bind]. cbv zeta.
  assert (Hparent :
            match parentId with
            | Some id =>
                if id =? "null" then "null"
                else if negb (truthy id) || (id =? "") then defaultFolderId
                     else id
            | None => defaultFolderId
            end = parentFolderId).
  { subst parentFolderId. destruct parentId as [id|]; [|reflexivity].
    destruct (String.eqb_spec id "null") as [->|_]; [reflexivity|].
    unfold truthy. now destruct (id =? ""). }
  rewrite Hparent.
  assert (Hfolders : listFolders drive clock parentFolderId accessToken
                     = Some (Returned (toFolderInfos clock 0 files),
                             [CallListDriveFiles
                                (folderListParams parentFolderId accessToken)])).
  { unfold listFolders.
    change {| parentFolderId := parentFolderId;
              mimeType := Some "application/vnd.google-apps.folder";
              accessToken := accessToken; orderBy := None; fields := None |}
      with (folderListParams parentFolderId accessToken).
    cbv zeta. now rewrite Hlisted. }
  rewrite Hfolders. cbn [bind try_catch ret]. now rewrite !app_nil_r.
Qed.

Lemma listFoldersHandler_lists_the_named_parent_witness :
  listFoldersHandler scenarioDrive (fun _ => "2025-01-01T00:00:00.000Z")
                     someEnv (Some "null")
  = Some (Returned
            (json_ (FoldersBody
                      (toFolderInfos (fun _ => "2025-01-01T00:00:00.000Z") 0
                                     [plainFile "x" "a.txt" None])) 200),
          [CallRefreshAccessToken
             {| tx_clientId := "client"; tx_clientSecret := "secret";
                tx_code := "refresh"; tx_redirectUri := "" |};
           CallListDriveFiles (folderListParams "null" "token")]).
Proof.
  apply (listFoldersHandler_lists_the_named_parent
           scenarioDrive (fun _ => "2025-01-01T00:00:00.000Z") someEnv
           (Some "null")
           {| clientId := "client"; clientSecret := "secret";
              refreshToken := "refresh" |}
           "R" "token"
           [CallRefreshAccessToken
              {| tx_clientId := "client"; tx_clientSecret := "secret";
                 tx_code := "refresh"; tx_redirectUri := "" |}]
           [plainFile "x" "a.txt" None]);
    reflexivity.
Defined.

(** ** The wrappers over [fetch] *)

Section WrapperFacts.

Variable fetch : OAuth.Request -> Outcome OAuth.Response.
Variable parseTokens : string -> Outcome OAuth.Tokens.
Variable parseTokenError : string -> Outcome OAuth.TokenError.
Variable parseDriveErrorMessage : string -> Outcome string.
Variable parseFiles : string -> Outcome (list DriveFile).
Variable parseFileInfo : string -> Outcome DriveFileInfo.
Variable parseFolder : string -> Outcome CreateFolderResponse.

Lemma listDriveFiles_not_ok (params : DriveListFilesParams)
  (response : OAuth.Response) :
  fetch (OAuth.listRequest params) = Returned response ->
  OAuth.ok response = false ->
  OAuth.listDriveFiles fetch parseDriveErrorMessage parseFiles params
  = Thrown ("Failed to list files: " ++ OAuth.text response).
Proof.
  intros Hfetch Hok. unfold OAuth.listDriveFiles.
  rewrite Hfetch. cbn [OAuth.andThen]. rewrite Hok. cbn [negb].
  now destruct (parseDriveErrorMessage (OAuth.text response)).
Qed.

Lemma getDriveFileInfo_not_returned (fileId accessToken : string)
  (fields : option string) :
  (exists reason,
      fetch (OAuth.fileInfoRequest fileId accessToken fields) = Thrown reason)
  \/ (exists response,
         fetch (OAuth.fileInfoRequest fileId accessToken fields)
         = Returned response
         /\ (OAuth.ok response = false
             \/ exists reason,
                 parseFileInfo (OAuth.text response) = Thrown reason)) ->
  exists message,
    OAuth.getDriveFileInfo fetch parseFileInfo fileId accessToken fields
    = Thrown message.
Proof.
  unfold OAuth.getDriveFileInfo.
  intros [(reason & ->) | (response & -> & [Hok | (reason & Hparse)])];
    cbn [OAuth.andThen].
  - now eexists.
  - rewrite Hok. now eexists.
  - destruct (OAuth.ok response); cbn [negb]; [|now eexists].
    rewrite Hparse. now eexists.
Qed.

End WrapperFacts.

(** A listing that the provider answers with a status that is not [ok]
    fails with [Failed to list files: ] followed by the text of the
    response, whether or not that text parses as a Drive error: the message
    [Drive API error: ...] built from a parsed error is thrown inside the
    [try] and replaced by its [catch]. *)
Theorem listDriveFiles_failure_is_the_response_text
  (fetch : OAuth.Request -> Outcome OAuth.Response)
  (parseDriveErrorMessage : string -> Outcome string)
  (parseFiles : string -> Outcome (list DriveFile))
  (params : DriveListFilesParams) (response : OAuth.Response) :
  fetch (OAuth.listRequest params) = Returned response ->
  OAuth.ok response = false ->
  OAuth.listDriveFiles fetch parseDriveErrorMessage parseFiles params
  = Thrown ("Failed to list files: " ++ OAuth.text response)
  /\ forall message,
      OAuth.listDriveFiles fetch parseDriveErrorMessage parseFiles params
      <> Thrown ("Drive API error: " ++ message).
Proof.
  intros Hfetch Hok.
  rewrite (listDriveFiles_not_ok _ _ _ _ _ Hfetch Hok).
  split; [reflexivity|]. intros message. discriminate.
Qed.

Lemma listDriveFiles_failure_is_the_response_text_witness :
  OAuth.listDriveFiles
    (fun _ => Returned {| OAuth.ok := false; OAuth.text := "{...}" |})
    (fun _ => Returned "File not found") (fun _ => Returned [])
    (searchParams "F" "token")
  = Thrown "Failed to list files: {...}".
Proof.
  apply (proj1 (listDriveFiles_failure_is_the_response_text
                  (fun _ => Returned {| OAuth.ok := false;
                                        OAuth.text := "{...}" |})
                  (fun _ => Returned "File not found")
                  (fun _ => Returned [])
                  (searchParams "F" "token")
                  {| OAuth.ok := false; OAuth.text := "{...}" |}
                  eq_refl eq_refl)).
Defined.

Lemma refreshAccessToken_not_ok
  (fetch : OAuth.Request -> Outcome OAuth.Response)
  (parseTokens : string -> Outcome OAuth.Tokens)
  (parseTokenError : string -> Outcome OAuth.TokenError)
  (params : TokenExchangeParams) (response : OAuth.Response) :
  fetch (OAuth.refreshRequest params) = Returned response ->
  OAuth.ok response = false ->
  OAuth.refreshAccessToken fetch parseTokens parseTokenError params
  = Thrown match parseTokenError (OAuth.text response) with
           | Returned errorData =>
               "OAuth error: " ++ OAuth.error errorData
               ++ match OAuth.error_description errorData with
                  | Some description =>
                      if truthy description then " - " ++ description else ""
                  | None => ""
                  end
           | Thrown _ => "Token refresh failed: " ++ OAuth.text response
           end.
Proof.
  intros Hfetch Hok. unfold OAuth.refreshAccessToken.
  rewrite Hfetch. cbn [OAuth.andThen]. rewrite Hok. cbn [negb].
  now destruct (parseTokenError (OAuth.text response)).
Qed.

(** When the token endpoint answers with a status that is not [ok], both
    token wrappers fail with [OAuth error: ] followed by the error of the
    response and, after [ - ], its description when it has one; a response
    that does not parse as an OAuth error fails with the text of the
    response instead, under [Token exchange failed: ] or
    [Token refresh failed: ].  The tokens of the response are not read. *)
Theorem token_wrappers_report_oauth_errors
  (fetch : OAuth.Request -> Outcome OAuth.Response)
  (parseTokens : string -> Outcome OAuth.Tokens)
  (parseTokenError : string -> Outcome OAuth.TokenError)
  (params : TokenExchangeParams) (response : OAuth.Response) :
  OAuth.ok response = false ->
  let oauthMessage (errorData : OAuth.TokenError) :=
    "OAuth error: " ++ OAuth.error errorData
    ++ match OAuth.error_description errorData with
       | Some description =>
           if truthy description then " - " ++ description else ""
       | None => ""
       end in
  (fetch (OAuth.exchangeRequest params) = Returned response ->
   OAuth.exchangeCodeForTokens fetch parseTokens parseTokenError params
   = Thrown match parseTokenError (OAuth.text response) with
            | Returned errorData => oauthMessage errorData
            | Thrown _ => "Token exchange failed: " ++ OAuth.text response
            end)
  /\ (fetch (OAuth.refreshRequest params) = Returned response ->
      OAuth.refreshAccessToken fetch parseTokens parseTokenError params
      = Thrown match parseTokenError (OAuth.text response) with
               | Returned errorData => oauthMessage errorData
               | Thrown _ => "Token refresh failed: " ++ OAuth.text response
               end).
Proof.
  intros Hok oauthMessage. split; intros Hfetch.
  - unfold OAuth.exchangeCodeForTokens.
    rewrite Hfetch. cbn [OAuth.andThen]. rewrite Hok. cbn [negb].
    now destruct (parseTokenError (OAuth.text response)).
  - now apply refreshAccessToken_not_ok.
Qed.

Lemma token_wrappers_report_oauth_errors_witness :
  OAuth.refreshAccessToken
    (fun _ => Returned refusedGrant)
    (fun _ => Thrown "unexpected")
    (fun errorText =>
       Returned {| OAuth.error := errorText;
                   OAuth.error_description := Some "Token has been revoked" |})
    {| tx_clientId := "client"; tx_clientSecret := "secret";
       tx_code := "refresh"; tx_redirectUri := "" |}
  = Thrown "OAuth error: invalid_grant - Token has been revoked".
Proof.
  apply (proj2 (token_wrappers_report_oauth_errors
                  (fun _ => Returned refusedGrant)
                  (fun _ => Thrown "unexpected")
                  (fun errorText =>
                     Returned {| OAuth.error := errorText;
                                 OAuth.error_description :=
                                   Some "Token has been revoked" |})
                  {| tx_clientId := "client"; tx_clientSecret := "secret";
                     tx_code := "refresh"; tx_redirectUri := "" |}
                  refusedGrant eq_refl)).
  reflexivity.
Defined.

(** ** The client made of the wrappers *)

Section FetchClient.

Variable fetch : OAuth.Request -> Outcome OAuth.Response.
Variable parseTokens : string -> Outcome OAuth.Tokens.
Variable parseTokenError : string -> Outcome OAuth.TokenError.
Variable parseDriveErrorMessage : string -> Outcome string.
Variable parseFiles : string -> Outcome (list DriveFile).
Variable parseFileInfo : string -> Outcome DriveFileInfo.
Variable uploadFetch : UploadRequest -> Outcome UploadResponse.

Local Abbreviation client :=
  (fetchClient fetch parseTokens parseTokenError parseDriveErrorMessage
               parseFiles parseFileInfo uploadFetch).

Lemma fetchClient_lookup_failure (fuel : nat)
  (folderId defaultFolderId accessToken message : string) :
  folderId <> defaultFolderId ->
  OAuth.getDriveFileInfo fetch parseFileInfo folderId accessToken
                         (Some "parents") = Thrown message ->
  isUnderDefaultFolder client (S fuel) folderId defaultFolderId accessToken
  = Some (Returned false, [lookup accessToken folderId]).
Proof.
  intros Hne Hthrown.
  change (walk client defaultFolderId accessToken (S fuel) folderId
          = Some (Returned false, [lookup accessToken folderId])).
  rewrite walk_step by assumption. unfold parentsOf.
  change (getDriveFileInfo client folderId accessToken "parents")
    with (OAuth.getDriveFileInfo fetch parseFileInfo folderId accessToken
                                 (Some "parents")).
  now rewrite Hthrown.
Qed.

Lemma fetchClient_refresh_failure (credentials : GoogleDriveCredentials)
  (response : OAuth.Response) (errorData : OAuth.TokenError) :
  fetch (OAuth.refreshRequest
           {| tx_clientId := clientId credentials;
              tx_clientSecret := clientSecret credentials;
              tx_code := refreshToken credentials;
              tx_redirectUri := "" |}) = Returned response ->
  OAuth.ok response = false ->
  parseTokenError (OAuth.text response) = Returned errorData ->
  getAccessToken client credentials
  = Some (Thrown ("Failed to refresh access token: "
                  ++ "OAuth error: " ++ OAuth.error errorData
                  ++ match OAuth.error_description errorData with
                     | Some description =>
                         if truthy description then " - " ++ description
                         else ""
                     | None => ""
                     end),
          [CallRefreshAccessToken
             {| tx_clientId := clientId credentials;
                tx_clientSecret := clientSecret credentials;
                tx_code := refreshToken credentials;
                tx_redirectUri := "" |}]).
Proof.
  intros Hfetch Hok Hparse. rewrite getAccessToken_unfold. cbv zeta.
  change (refreshAccessToken client ?p)
    with (OAuth.andThen
            (OAuth.refreshAccessToken fetch parseTokens parseTokenError p)
            (fun tokens =>
               Returned {| access_token := OAuth.access_token tokens;
                           token_type := OAuth.token_type tokens |})).
  rewrite (refreshAccessToken_not_ok _ _ _ _ _ Hfetch Hok), Hparse.
  reflexivity.
Qed.

End FetchClient.

(** Over the wrappers, the guard denies on every kind of failed lookup: for
    a folder other than the default one it returns [false], after that one
    lookup, when [fetch] fails, when the provider answers with a status
    that is not [ok], and when the answer does not parse as file
    information. *)
Theorem isUnderDefaultFolder_denies_on_http_failure
  (fetch : OAuth.Request -> Outcome OAuth.Response)
  (parseTokens : string -> Outcome OAuth.Tokens)
  (parseTokenError : string -> Outcome OAuth.TokenError)
  (parseDriveErrorMessage : string -> Outcome string)
  (parseFiles : string -> Outcome (list DriveFile))
  (parseFileInfo : string -> Outcome DriveFileInfo)
  (uploadFetch : UploadRequest -> Outcome UploadResponse)
  (fuel : nat) (folderId defaultFolderId accessToken : string) :
  folderId <> defaultFolderId ->
  (exists reason,
      fetch (OAuth.fileInfoRequest folderId accessToken (Some "parents"))
      = Thrown reason)
  \/ (exists response,
         fetch (OAuth.fileInfoRequest folderId accessToken (Some "parents"))
         = Returned response
         /\ (OAuth.ok response = false
             \/ exists reason,
                 parseFileInfo (OAuth.text response) = Thrown reason)) ->
  isUnderDefaultFolder
    (fetchClient fetch parseTokens parseTokenError parseDriveErrorMessage
                 parseFiles parseFileInfo uploadFetch)
    (S fuel) folderId defaultFolderId accessToken
  = Some (Returned false, [lookup accessToken folderId]).
Proof.
  intros Hne Hfailure.
  destruct (getDriveFileInfo_not_returned fetch parseFileInfo folderId
              accessToken (Some "parents") Hfailure) as (message & Hthrown).
  now apply fetchClient_lookup_failure with (message := message).
Qed.

Lemma isUnderDefaultFolder_denies_on_http_failure_witness :
  isUnderDefaultFolder
    (answering {| OAuth.ok := false; OAuth.text := "File not found: C" |}
               (fun _ => Thrown "Unexpected end of JSON input"))
    1 "C" "R" "token"
  = Some (Returned false, [lookup "token" "C"]).
Proof.
  apply (isUnderDefaultFolder_denies_on_http_failure
           (fun _ => Returned {| OAuth.ok := false;
                                 OAuth.text := "File not found: C" |})
           (fun _ => Thrown "Unexpected end of JSON input")
           (fun _ => Thrown "Unexpected end of JSON input")
           (fun _ => Thrown "Unexpected end of JSON input")
           (fun _ => Thrown "Unexpected end of JSON input")
           (fun _ => Thrown "Unexpected end of JSON input")
           (fun _ => Thrown "fetch failed")
           0 "C" "R" "token").
  - discriminate.
  - right. eexists. split; [reflexivity|]. now left.
Defined.

(** A token request that the provider refuses surfaces, through the
    wrapper, [getAccessToken] and the delete handler, as a 500 whose error
    is [Failed to refresh access token] and whose details are
    [OAuth error: ] followed by the error of the provider and its
    description; one request was made, and no folder was looked up. *)
Theorem deleteFolderContentsHandler_reports_oauth_error
  (fetch : OAuth.Request -> Outcome OAuth.Response)
  (parseTokens : string -> Outcome OAuth.Tokens)
  (parseTokenError : string -> Outcome OAuth.TokenError)
  (parseDriveErrorMessage : string -> Outcome string)
  (parseFiles : string -> Outcome (list DriveFile))
  (parseFileInfo : string -> Outcome DriveFileInfo)
  (uploadFetch : UploadRequest -> Outcome UploadResponse)
  (fuel : nat) (env : Env) (credentials : GoogleDriveCredentials)
  (defaultFolderId folderId : string)
  (response : OAuth.Response) (errorData : OAuth.TokenError) :
  envCredentials env = Some (credentials, defaultFolderId) ->
  folderId <> "" ->
  fetch (OAuth.refreshRequest
           {| tx_clientId := clientId credentials;
              tx_clientSecret := clientSecret credentials;
              tx_code := refreshToken credentials;
              tx_redirectUri := "" |}) = Returned response ->
  OAuth.ok response = false ->
  parseTokenError (OAuth.text response) = Returned errorData ->
  deleteFolderContentsHandler
    (fetchClient fetch parseTokens parseTokenError parseDriveErrorMessage
                 parseFiles parseFileInfo uploadFetch)
    fuel env (Returned (Some folderId))
  = Some (Returned
            (json_ (ErrorBody "Failed to refresh access token"
                      (Some ("OAuth error: " ++ OAuth.error errorData
                             ++ match OAuth.error_description errorData with
                                | Some description =>
                                    if truthy description
                                    then " - " ++ description
                                    else ""
                                | None => ""
                                end))) 500),
          [CallRefreshAccessToken
             {| tx_clientId := clientId credentials;
                tx_clientSecret := clientSecret credentials;
                tx_code := refreshToken credentials;
                tx_redirectUri := "" |}]).
Proof.
  intros Henv Hne Hfetch Hok Hparse.
  rewrite (deleteFolderContentsHandler_shape _ _ _ _ _ _ Henv).
  rewrite (deleteFolderContents_token_failure _ _ _ _ _ _ _ Hne
             (fetchClient_refresh_failure fetch parseTokens parseTokenError
                parseDriveErrorMessage parseFiles parseFileInfo uploadFetch
                credentials response errorData Hfetch Hok Hparse)).
  now rewrite errorResponse_refresh_failure.
Qed.

Lemma deleteFolderContentsHandler_reports_oauth_error_witness :
  deleteFolderContentsHandler
    (answering refusedGrant
               (fun errorText =>
                  Returned {| OAuth.error := errorText;
                              OAuth.error_description := None |}))
    2 someEnv (Returned (Some "C"))
  = Some (Returned
            (json_ (ErrorBody "Failed to refresh access token"
                      (Some "OAuth error: invalid_grant")) 500),
          [CallRefreshAccessToken
             {| tx_clientId := "client"; tx_clientSecret := "secret";
                tx_code := "refresh"; tx_redirectUri := "" |}]).
Proof.
  apply (deleteFolderContentsHandler_reports_oauth_error
           (fun _ => Returned refusedGrant)
           (fun _ => Thrown "Unexpected end of JSON input")
           (fun errorText =>
              Returned {| OAuth.error := errorText;
                          OAuth.error_description := None |})
           (fun _ => Thrown "Unexpected end of JSON input")
           (fun _ => Thrown "Unexpected end of JSON input")
           (fun _ => Thrown "Unexpected end of JSON input")
           (fun _ => Thrown "fetch failed")
           2 someEnv
           {| clientId := "client"; clientSecret := "secret";
              refreshToken := "refresh" |}
           "R" "C" refusedGrant
           {| OAuth.error := "invalid_grant";
              OAuth.error_description := None |});
    try reflexivity.
  discriminate.
Defined.

(** ** The OAuth callback *)


Example callback_provider_error :
  OAuth.callbackHandler
    (fun _ => Thrown "fetch failed") (fun _ => Thrown "unused")
    (fun _ => Thrown "unused") callbackEnv (Some "4/0Ab") (Some "access_denied")
  = (json_ (ErrorBody "OAuth error" (Some "access_denied")) 400, []).
Proof. reflexivity. Qed.

Example callback_exchange_refused :
  OAuth.callbackHandler
    (fun _ => Returned refusedGrant) (fun _ => Thrown "unused")
    (fun errorText =>
       Returned {| OAuth.error := errorText;
                   OAuth.error_description := Some "Bad Request" |})
    callbackEnv (Some "4/0Ab") None
  = (json_ (ErrorBody "Failed to exchange authorization code for tokens"
              (Some "OAuth error: invalid_grant - Bad Request")) 500,
     [OAuth.exchangeRequest
        {| tx_clientId := "client"; tx_clientSecret := "secret";
           tx_code := "4/0Ab";
           tx_redirectUri := "http://localhost:3000/api/drive/callback" |}]).
Proof. reflexivity. Qed.

(** ** Overwriting an upload *)

(** With [overwrite] set, a validated parent folder and a listing whose
    first entry of the name of the file has a non-empty id, the upload
    replaces that entry: after the token refresh, the validation and the
    listing, its last call is a [PATCH] on the id of that entry, under the
    name that was searched (the name of the file, [untitled] when it has
    none) and with no parents in the metadata. *)
Theorem processFileUpload_overwrites_first_match
  (drive : DriveClient) (fuel : nat) (file : File) (folderId : string)
  (credentials : GoogleDriveCredentials)
  (defaultFolderId accessToken : string)
  (tokenCalls validationCalls : list Call) (validation : FolderValidation)
  (before rest : list DriveFile) (found : DriveFile) :
  let parent := orElse folderId defaultFolderId in
  let fileName := orElse (name file) "untitled" in
  let request := uploadRequest file parent (Some (file_id found)) accessToken in
  getAccessToken drive credentials = Some (Returned accessToken, tokenCalls) ->
  validateFolder drive fuel parent defaultFolderId accessToken
  = Some (Returned validation, validationCalls) ->
  valid validation = true ->
  listDriveFiles drive (searchParams parent accessToken)
  = Returned (before ++ found :: rest)%list ->
  Forall (fun entry => file_name entry <> fileName) before ->
  file_name found = fileName ->
  file_id found <> "" ->
  (exists r,
      processFileUpload drive fuel (Some file) folderId true credentials
                        defaultFolderId
      = Some (r, (tokenCalls ++ validationCalls
                  ++ [CallListDriveFiles (searchParams parent accessToken);
                      CallFetchUpload request])%list))
  /\ method request = "PATCH"
  /\ apiUrl request
     = "https://www.googleapis.com/upload/drive/v3/files/" ++ file_id found
       ++ "?uploadType=multipart&fields=id,name,webViewLink,webContentLink"
  /\ metadata_name request = fileName
  /\ metadata_parents request = None.
Proof.
  cbv zeta.
  intros Htoken Hvalidation Hvalid Hlisted Hbefore Hfound Hid.
  split.
  - destruct (processFileUpload_cases drive fuel file folderId true
                credentials defaultFolderId)
      as [E | [(message & tcalls & Et & E)
              | [(token & tcalls & v & vcalls & Et & Ev & Hv & E)
                | (token & tcalls & v & vcalls & existing & rcalls
                   & Et & Ev & Hv & Er & E)]]];
      cbv zeta in *.
    + exfalso. unfold processFileUpload in E.
      rewrite Htoken in E. cbn [bind] in E.
      rewrite Hvalidation in E. cbn [bind] in E.
      rewrite Hvalid in E. cbn [negb] in E.
      unfold resolveExistingFileId in E.
      rewrite (findExistingFile_listed _ _ _ _ _ Hlisted) in E.
      cbn [bind] in E. rewrite uploadFile_outcome in E. cbn [bind] in E.
      destruct (fetchUpload drive _) as [response|reason];
        [destruct (ok response); [destruct (json response)|]|]; discriminate.
    + rewrite Htoken in Et. discriminate.
    + rewrite Htoken in Et. injection Et as <- <-.
      rewrite Hvalidation in Ev. injection Ev as <- <-. congruence.
    + rewrite Htoken in Et. injection Et as <- <-.
      rewrite Hvalidation in Ev. injection Ev as <- <-.
      unfold resolveExistingFileId in Er.
      rewrite (findExistingFile_listed _ _ _ _ _ Hlisted) in Er.
      rewrite (filter_name_first _ _ _ _ Hbefore Hfound) in Er.
      injection Er as <- <-.
      eexists. rewrite E. reflexivity.
  - unfold uploadRequest, hasExistingFileId.
    cbn [method apiUrl metadata_name metadata_parents].
    rewrite (truthy_nonempty _ Hid). now repeat split.
Qed.

Lemma processFileUpload_overwrites_first_match_witness :
  exists r,
    processFileUpload duplicateNamesDrive 0 (Some someFile) "" true
                      someCredentials "F"
    = Some (r,
            [CallRefreshAccessToken
               {| tx_clientId := "client"; tx_clientSecret := "secret";
                  tx_code := "refresh"; tx_redirectUri := "" |};
             CallListDriveFiles (searchParams "F" "token");
             CallFetchUpload (uploadRequest someFile "F" (Some "x") "token")]).
Proof.
  apply (proj1 (processFileUpload_overwrites_first_match
                  duplicateNamesDrive 0 someFile "" someCredentials "F"
                  "token"
                  [CallRefreshAccessToken
                     {| tx_clientId := "client"; tx_clientSecret := "secret";
                        tx_code := "refresh"; tx_redirectUri := "" |}]
                  []
                  {| valid := true; validation_error := None;
                     validation_details := None |}
                  [plainFile "n" "notes.txt" None]
                  [plainFile "u" "A.TXT" None; plainFile "y" "a.txt" None]
                  (plainFile "x" "a.txt" None)
                  eq_refl eq_refl eq_refl eq_refl
                  ltac:(constructor; [discriminate|constructor])
                  eq_refl ltac:(discriminate))).
Defined.

(** ** The loop of deletions *)

(** The loop of deletions asks for each file once, in the order of the
    list, and never throws; every file ends up either counted as deleted or
    with one error message, so the two counts add up to the number of
    files. *)
Theorem deleteEach_accounts_for_every_file
  (drive : DriveClient) (accessToken : string) (files : list DriveFile)
  (deletedCount : nat) (errors : list string) :
  exists deleted errors',
    deleteEach drive accessToken files deletedCount errors
    = Some (Returned (deleted, errors'),
            map (fun file => CallDeleteDriveFile (file_id file) accessToken)
                files)
    /\ deleted + length errors'
       = deletedCount + length errors + length files.
Proof.
  destruct (deleteEach_counts drive accessToken files deletedCount errors)
    as (errors' & Hrun & Hlen).
  eexists _, errors'. split; [exact Hrun|].
  rewrite Hlen.
  assert (Hsplit : forall (p : DriveFile -> bool) l,
             length (filter p l) + length (filter (fun x => negb (p x)) l)
             = length l).
  { intros p l. induction l as [|x l IH]; simpl; [reflexivity|].
    destruct (p x); simpl; lia. }
  pose proof (Hsplit (deleteSucceeds drive accessToken) files). lia.
Qed.

(** ** Failures of the provider, as the handlers report them *)

(** A message that starts with the failure a handler names and includes
    neither of the two token texts is reported under that failure, with
    what follows the prefix as details. *)
Lemma errorResponse_named_failure (failure fallback reason : string) :
  includes (failure ++ ": " ++ reason) "Failed to refresh access token"
  = false ->
  includes (failure ++ ": " ++ reason) "No access token" = false ->
  errorResponse failure fallback (failure ++ ": " ++ reason)
  = json_ (ErrorBody failure (Some reason)) 500.
Proof.
  intros Hrefresh Htoken. unfold errorResponse.
  rewrite Hrefresh, Htoken.
  assert (Happ : forall a b c : string, (a ++ b ++ c = (a ++ b) ++ c)%string).
  { induction a as [|ch a IH]; intros b c; simpl; [reflexivity|].
    now rewrite IH. }
  rewrite includes_prefix.
  rewrite (Happ failure ": " reason). now rewrite replaceFirst_prefix.
Qed.

(** When the listing of an authorized folder fails with a reason that has
    neither token text in it, the delete handler answers 500 with the error
    [Failed to list folder contents] and that reason as details. *)
Theorem deleteFolderContentsHandler_reports_listing_failure
  (drive : DriveClient) (fuel : nat) (env : Env)
  (credentials : GoogleDriveCredentials)
  (defaultFolderId folderId accessToken reason : string)
  (tokenCalls guardCalls : list Call) :
  envCredentials env = Some (credentials, defaultFolderId) ->
  folderId <> "" ->
  getAccessToken drive credentials = Some (Returned accessToken, tokenCalls) ->
  isUnderDefaultFolder drive fuel folderId defaultFolderId accessToken
  = Some (Returned true, guardCalls) ->
  listDriveFiles drive (contentsParams folderId accessToken) = Thrown reason ->
  includes ("Failed to list folder contents: " ++ reason)
           "Failed to refresh access token" = false ->
  includes ("Failed to list folder contents: " ++ reason) "No access token"
  = false ->
  deleteFolderContentsHandler drive fuel env (Returned (Some folderId))
  = Some (Returned
            (json_ (ErrorBody "Failed to list folder contents" (Some reason))
                   500),
          (tokenCalls ++ guardCalls
           ++ [CallListDriveFiles (contentsParams folderId accessToken)])%list).
Proof.
  intros Henv Hne Htoken Hguard Hlisting Hrefresh Hnone.
  rewrite (deleteFolderContentsHandler_shape _ _ _ _ _ _ Henv).
  rewrite (deleteFolderContents_after_token _ _ _ _ _ _ _ Hne Htoken).
  rewrite Hguard, Hlisting. do 3 f_equal.
  exact (errorResponse_named_failure "Failed to list folder contents"
           "Failed to delete folder contents" reason Hrefresh Hnone).
Qed.

Lemma deleteFolderContentsHandler_reports_listing_failure_witness :
  deleteFolderContentsHandler listingFailsDrive 2 someEnv (Returned (Some "F"))
  = Some (Returned
            (json_ (ErrorBody "Failed to list folder contents"
                      (Some "Failed to list files: quota exceeded")) 500),
          [CallRefreshAccessToken
             {| tx_clientId := "client"; tx_clientSecret := "secret";
                tx_code := "refresh"; tx_redirectUri := "" |};
           lookup "token" "F";
           CallListDriveFiles (contentsParams "F" "token")]).
Proof.
  apply (deleteFolderContentsHandler_reports_listing_failure
           listingFailsDrive 2 someEnv
           {| clientId := "client"; clientSecret := "secret";
              refreshToken := "refresh" |}
           "R" "F" "token" "Failed to list files: quota exceeded"
           [CallRefreshAccessToken
              {| tx_clientId := "client"; tx_clientSecret := "secret";
                 tx_code := "refresh"; tx_redirectUri := "" |}]
           [lookup "token" "F"]);
    try reflexivity.
  discriminate.
Defined.

(** When the provider refuses to create the folder, the message of the
    wrapper and the message of [createFolder] both start with
    [Failed to create folder: ], and the create handler removes only the
    first: it answers 500 with the error [Failed to create folder] and, as
    details, [Failed to create folder: ] followed by the text of the
    response (a text that has neither token text in it). *)
Theorem createFolderHandler_keeps_one_prefix
  (drive : DriveClient)
  (fetch : OAuth.Request -> Outcome OAuth.Response)
  (parseFolder : string -> Outcome CreateFolderResponse)
  (env : Env) (credentials : GoogleDriveCredentials)
  (defaultFolderId accessToken name : string) (parentId : option string)
  (tokenCalls : list Call) (response : OAuth.Response) :
  let params := {| create_name := name;
                   create_parentId := orElseOpt parentId defaultFolderId;
                   create_accessToken := accessToken |} in
  let reason := "Failed to create folder: " ++ OAuth.text response in
  envCredentials env = Some (credentials, defaultFolderId) ->
  name <> "" ->
  getAccessToken drive credentials = Some (Returned accessToken, tokenCalls) ->
  fetch (OAuth.createFolderRequest params) = Returned response ->
  OAuth.ok response = false ->
  includes ("Failed to create folder: " ++ reason)
           "Failed to refresh access token" = false ->
  includes ("Failed to create folder: " ++ reason) "No access token" = false ->
  createFolderHandler drive (OAuth.createDriveFolder fetch parseFolder) env
    (Returned {| request_name := Some name; request_parentId := parentId |})
  = Some (Returned (json_ (ErrorBody "Failed to create folder" (Some reason))
                          500),
          (map DriveCall tokenCalls ++ [CallCreateDriveFolder params])%list).
Proof.
  cbv zeta. intros Henv Hne Htoken Hfetch Hok Hrefresh Hnone.
  unfold createFolderHandler. rewrite Henv.
  unfold settled, liftF at 1. cbn [map bindF request_name request_parentId].
  unfold createFolder. rewrite (truthy_nonempty _ Hne). cbn [negb].
  rewrite Htoken. cbn [liftF bindF]. cbv zeta.
  unfold OAuth.createDriveFolder at 1. rewrite Hfetch.
  cbn [OAuth.andThen]. rewrite Hok.
  cbn [negb awaitF bindF try_catchF throwF retF app].
  rewrite !app_nil_r. do 3 f_equal.
  exact (errorResponse_named_failure "Failed to create folder"
           "Failed to create folder" _ Hrefresh Hnone).
Qed.

Lemma createFolderHandler_keeps_one_prefix_witness :
  createFolderHandler scenarioDrive
    (OAuth.createDriveFolder
       (fun _ => Returned {| OAuth.ok := false;
                             OAuth.text := "parent not found" |})
       (fun _ => Thrown "unused"))
    someEnv
    (Returned {| request_name := Some "reports";
                 request_parentId := Some "elsewhere" |})
  = Some (Returned
            (json_ (ErrorBody "Failed to create folder"
                      (Some "Failed to create folder: parent not found")) 500),
          [DriveCall
             (CallRefreshAccessToken
                {| tx_clientId := "client"; tx_clientSecret := "secret";
                   tx_code := "refresh"; tx_redirectUri := "" |});
           CallCreateDriveFolder
             {| create_name := "reports"; create_parentId := "elsewhere";
                create_accessToken := "token" |}]).
Proof.
  apply (createFolderHandler_keeps_one_prefix
           scenarioDrive
           (fun _ => Returned {| OAuth.ok := false;
                                 OAuth.text := "parent not found" |})
           (fun _ => Thrown "unused")
           someEnv
           {| clientId := "client"; clientSecret := "secret";
              refreshToken := "refresh" |}
           "R" "token" "reports" (Some "elsewhere")
           [CallRefreshAccessToken
              {| tx_clientId := "client"; tx_clientSecret := "secret";
                 tx_code := "refresh"; tx_redirectUri := "" |}]
           {| OAuth.ok := false; OAuth.text := "parent not found" |});
    try reflexivity.
  discriminate.
Defined.
